(** * Motus: head-orientation tracking and serial demultiplexing

    A shallow embedding of [src/data_collection/face/face1.py] and
    [src/data_collection/leg/capture2.py], with the properties of the
    specification stated and proved over it.

    Numbers.  Python [float] values are idealised as real numbers where a
    property is about the shape of the computation (guards, clamps, means)
    and does not turn on rounding.  The estimator decides its branch by a
    comparison of computed doubles, [abs(relative_pos - 0.5) < 0.05], whose
    outcome at the edge of the dead zone is a matter of rounding: it is
    embedded a second time on IEEE 754 doubles ([Binary64]), and what is said
    of the choice of the branch is said of that embedding.  Landmark
    coordinates are integers ([Z]): they are pixel positions produced by the
    landmark predictor, and the array's [dtype="int"] has a platform width
    that the differences of pixel positions never reach. *)

From Stdlib Require Import Reals Rgeom Lra Lia ZArith QArith List String Ascii Bool.
From Stdlib Require Floats Uint63.
Import ListNotations.

Local Open Scope R_scope.

(** ** Python builtins on numbers *)

Module Py.

(** [min(a, b)]: the first argument, unless the second is strictly less. *)
Definition min (a b : R) : R := if Rlt_dec b a then b else a.

(** [max(a, b)]: the first argument, unless the second is strictly greater. *)
Definition max (a b : R) : R := if Rgt_dec b a then b else a.

(** [np.sign]. *)
Definition sign (x : R) : R :=
  if Rlt_dec x 0 then -1 else if Rgt_dec x 0 then 1 else 0.

(** [pow(x, y)] at a base [x >= 0] and an exponent [y > 0], the only way the
    program calls it: [0] at [x = 0], and [exp (y * ln x)] above. *)
Definition pow (x y : R) : R :=
  if Req_dec_T x 0 then 0 else Rpower x y.

(** [sum(xs)]: left to right, from [0]. *)
Definition sum (xs : list R) : R := fold_left Rplus xs 0.

(** [max(-1.0, min(1.0, x))], as the estimator and the main loop write it. *)
Definition clamp (x : R) : R := max (-1) (min 1 x).

(** What a call does: it returns, or it raises. *)
Inductive exn : Type :=
| ZeroDivisionError
| CvError       (* cv2.error, raised when a missing image is drawn or shown *)
| ValueError
| IndexError.

Inductive result (A : Type) : Type :=
| Ok (a : A)
| Raise (e : exn).
Arguments Ok {A} a.
Arguments Raise {A} e.

End Py.

(** ** face1.py *)

Module Face.

Import Py.

(** A part of a dlib shape. *)
Record part : Type := { x : Z; y : Z }.

(** A dlib [full_object_detection]: [shape.part(i)] for [i < num_parts]. *)
Definition dshape : Type := list part.

(** A row of the landmark array: [(x, y)]. *)
Definition point : Type := (Z * Z)%type.

(** The landmark array [landmarks_np], one row per landmark. *)
Definition landmarks : Type := list point.

Definition shape_to_np (shape : dshape) : landmarks :=
  map (fun p => (x p, y p)) shape.

(** [np.linalg.norm(p - q)] for two rows. *)
Definition norm_diff (p q : point) : R :=
  sqrt (IZR (fst p - fst q) * IZR (fst p - fst q)
        + IZR (snd p - snd q) * IZR (snd p - snd q)).

(** Row [i] of the array; the program reads rows 0, 16 and 30 only below its
    length guard. *)
Definition row (landmarks_np : landmarks) (i : nat) : point :=
  nth i landmarks_np (0%Z, 0%Z).

Definition distance_to_left (l : landmarks) : R := norm_diff (row l 30) (row l 0).
Definition distance_to_right (l : landmarks) : R := norm_diff (row l 30) (row l 16).
Definition face_width (l : landmarks) : R := norm_diff (row l 16) (row l 0).

Definition relative_pos (l : landmarks) : R :=
  distance_to_left l / (distance_to_left l + distance_to_right l).

(** Lines 49-57: the response applied to [relative_pos], and the clamp.  The
    test of line 49 is on real numbers here; the program makes it on the
    computed doubles ([Binary64.response]), and the two differ where the
    real [|relative_pos - 0.5|] is 0.05 or within rounding of it. *)
Definition response (relative_pos : R) : R :=
  let orientation :=
    if Rlt_dec (Rabs (relative_pos - 0.5)) 0.05
    then (relative_pos - 0.5) * 10
    else sign (relative_pos - 0.5) * pow (Rabs (relative_pos - 0.5) * 2) 0.8
  in clamp orientation.

(** [calculate_face_orientation]; [None] is Python's [None]. *)
Definition calculate_face_orientation (landmarks_np : landmarks) : option R :=
  if (List.length landmarks_np <? 31)%nat then None
  else if Rlt_dec (face_width landmarks_np) 10 then None
  else Some (response (relative_pos landmarks_np)).

(** The default of the parameter [window_size]. *)
Definition default_window_size : Z := 5.

(** [apply_moving_average]: the value returned together with the content of
    the list object [previous_values] after the call (the list is mutated in
    place).  [pop(0)] is applied to a list that was just appended to, so it
    finds an element; the division raises on an empty list. *)
Definition apply_moving_average
  (current_value : R) (previous_values : list R) (window_size : Z)
  : result (R * list R) :=
  let appended := previous_values ++ [current_value] in
  let kept :=
    if (Z.of_nat (List.length appended) >? window_size)%Z
    then tl appended else appended in
  match kept with
  | [] => Raise ZeroDivisionError
  | _ :: _ => Ok (sum kept / INR (List.length kept), kept)
  end.

(** *** The surroundings of the loops

    A frame is reduced to what the detector and the predictor find in it:
    the shape of [faces[0]], or no face.  [cap.read()] gives a frame, or
    [ret = False].  The capture is the list of the reads still to come; once
    it is used up every read fails, as at the end of a recording. *)
Definition frame : Type := option dshape.
Definition read : Type := option frame.

Inductive message : Type :=
| CalibrationPrompt                      (* line 73 *)
| CalibrationCompleteOffset (center_offset : R)   (* line 158 *)
| CalibrationFailed                      (* line 162 *)
| StartingCalibration                    (* line 217 *)
| CalibrationComplete                    (* line 220 *)
| RecordingTo.                           (* line 221 *)

Record world : Type := {
  cam : list read;        (* reads of [cap] still to come *)
  keys : list Z;          (* results of the [cv2.waitKey] calls still to come *)
  stdout : list message   (* what was printed, oldest first *)
}.

Definition cap_read (w : world) : read * world :=
  match cam w with
  | [] => (None, w)
  | r :: rest => (r, {| cam := rest; keys := keys w; stdout := stdout w |})
  end.

(** [cv2.waitKey(1)]: [-1] when no key was pressed. *)
Definition waitKey (w : world) : Z * world :=
  (hd (-1)%Z (keys w), {| cam := cam w; keys := tl (keys w); stdout := stdout w |}).

Definition print (m : message) (w : world) : world :=
  {| cam := cam w; keys := keys w; stdout := stdout w ++ [m] |}.

(** The orientation of a frame, when it shows a face with a defined one. *)
Definition frame_orientation (f : frame) : option R :=
  match f with
  | Some shape => calculate_face_orientation (shape_to_np shape)
  | None => None
  end.

(** Lines 130-153, the sampling loop.  The recursion is on the reads; the
    key read by [cv2.waitKey(1)] at line 152 is dropped. *)
Fixpoint sampling (cam : list read) (keys : list Z)
  (center_readings : nat) (sum_orientation : R)
  : nat * R * (list read * list Z) :=
  if (center_readings <? 10)%nat then
    match cam with
    | [] => (center_readings, sum_orientation, ([], keys))
    | None :: rest => (center_readings, sum_orientation, (rest, keys))
    | Some f :: rest =>
        match frame_orientation f with
        | Some orientation =>
            sampling rest (tl keys) (S center_readings) (sum_orientation + orientation)
        | None => sampling rest (tl keys) center_readings sum_orientation
        end
    end
  else (center_readings, sum_orientation, (cam, keys)).

(** Lines 77-166, the loop of [calibrate_face_orientation].  Every turn takes
    a read, so the fuel [S (length (cam w))] is never used up
    ([calibrate_returns]).  The frame of the read at line 125 is handed to
    the calls of lines 126-128 without a look at [ret]: on a failed read it
    is [None], and the run ends there with a [cv2.error]. *)
Fixpoint calibrate_loop (fuel : nat) (w : world) : option (result R * world) :=
  match fuel with
  | O => None
  | S fuel =>
      match cap_read w with
      | (None, w) => Some (Ok 0, w)
      | (Some _, w) =>
          let (key, w) := waitKey w in
          if (Z.land key 255 =? 32)%Z then
            match cap_read w with
            | (None, w) => Some (Raise CvError, w)
            | (Some _, w) =>
                let '(center_readings, sum_orientation, (cam', keys')) :=
                  sampling (cam w) (keys w) 0 0 in
                let w := {| cam := cam'; keys := keys'; stdout := stdout w |} in
                if (0 <? center_readings)%nat then
                  let center_offset := sum_orientation / INR center_readings in
                  Some (Ok center_offset, print (CalibrationCompleteOffset center_offset) w)
                else calibrate_loop fuel (print CalibrationFailed w)
            end
          else calibrate_loop fuel w
      end
  end.

Definition calibrate_face_orientation (w : world) : option (result R * world) :=
  let w := print CalibrationPrompt w in
  calibrate_loop (S (List.length (cam w))) w.

(** *** The session of [main] *)

(** The two clock reads of a turn that reaches line 253: [time.time()], and
    the text made from [datetime.now()] at line 255. *)
Record clock : Type := { time_time : R; datetime_now : string }.

(** A row of the orientation log.  Line 260 writes the orientation as text
    with two decimals, [f"{final_orientation:.2f}"]; the model keeps the
    number that is handed to the format, not the text, so [orientation] of a
    row is the value before its rounding to two decimals. *)
Record csv_row : Type := { timestamp : string; orientation : R }.

Record session : Type := {
  calibrated : bool;
  center_offset : R;
  last_orientation_value : option R;
  last_write_time : R;
  orientation_history : list R;
  csvfile : list csv_row
}.

(** Lines 194-201, with [time.time()] read at line 198. *)
Definition initial_session (start_time : R) : session :=
  {| calibrated := false; center_offset := 0;
     last_orientation_value := None; last_write_time := start_time;
     orientation_history := []; csvfile := [] |}.

(** The condition of line 254. *)
Definition must_write (final_orientation current_time : R) (s : session) : bool :=
  match last_orientation_value s with
  | None => true
  | Some last =>
      if Rgt_dec (Rabs (final_orientation - last)) 0.03 then true
      else if Rge_dec (current_time - last_write_time s) 0.5 then true
      else false
  end.

(** Lines 252-263. *)
Definition write_if_due (final_orientation : R) (now : clock) (s : session)
  : session :=
  let current_time := time_time now in
  if must_write final_orientation current_time s then
    {| calibrated := calibrated s; center_offset := center_offset s;
       last_orientation_value := Some final_orientation;
       last_write_time := current_time;
       orientation_history := orientation_history s;
       csvfile := csvfile s
                  ++ [{| timestamp := datetime_now now;
                         orientation := final_orientation |}] |}
  else s.

(** Lines 242-263: what a defined raw orientation does to the session. *)
Definition track (raw_orientation : R) (now : clock) (s : session)
  : result session :=
  let calibrated_orientation := raw_orientation - center_offset s in
  match apply_moving_average calibrated_orientation (orientation_history s)
          default_window_size with
  | Raise e => Raise e
  | Ok (smoothed_orientation, history) =>
      let final_orientation := clamp smoothed_orientation in
      Ok (write_if_due final_orientation now
            {| calibrated := calibrated s; center_offset := center_offset s;
               last_orientation_value := last_orientation_value s;
               last_write_time := last_write_time s;
               orientation_history := history;
               csvfile := csvfile s |})
  end.

(** Lines 215-222: the branch taken on the key [c]. *)
Definition calibration_branch (w : world) (s : session)
  : option (result session * world) :=
  match calibrate_face_orientation (print StartingCalibration w) with
  | None => None
  | Some (Raise e, w) => Some (Raise e, w)
  | Some (Ok offset, w) =>
      Some (Ok {| calibrated := true; center_offset := offset;
                  last_orientation_value := last_orientation_value s;
                  last_write_time := last_write_time s;
                  orientation_history := orientation_history s;
                  csvfile := csvfile s |},
            print RecordingTo (print CalibrationComplete w))
  end.

Inductive control : Type := Continue | Break.

(** One turn of the loop of [main], lines 203-329.  [now] is what the clock
    gives if the turn reaches line 253. *)
Definition main_turn (now : clock) (w : world) (s : session)
  : option (result (control * session) * world) :=
  match cap_read w with
  | (None, w) => Some (Ok (Break, s), w)
  | (Some f, w) =>
      let (key, w) := waitKey w in
      if (Z.land key 255 =? 99)%Z then                     (* ord('c') *)
        match calibration_branch w s with
        | None => None
        | Some (Raise e, w) => Some (Raise e, w)
        | Some (Ok s, w) => Some (Ok (Continue, s), w)
        end
      else if (Z.land key 255 =? 113)%Z then               (* ord('q') *)
        Some (Ok (Break, s), w)
      else
        match frame_orientation f with
        | Some raw_orientation =>
            match track raw_orientation now s with
            | Raise e => Some (Raise e, w)
            | Ok s => Some (Ok (Continue, s), w)
            end
        | None => Some (Ok (Continue, s), w)
        end
  end.

End Face.

(** ** capture2.py *)

Module Leg.

Import Py.

Local Open Scope string_scope.
Local Open Scope list_scope.

(** [line.split(',')]: at least one field, also for the empty line. *)
Fixpoint split_comma (line : string) : list string :=
  match line with
  | EmptyString => [EmptyString]
  | String c rest =>
      if Ascii.eqb c "," then EmptyString :: split_comma rest
      else
        match split_comma rest with
        | field :: fields => String c field :: fields
        | [] => [String c EmptyString]
        end
  end.

Definition bind {A B : Type} (r : result A) (k : A -> result B) : result B :=
  match r with
  | Ok a => k a
  | Raise e => Raise e
  end.

Notation "x <- r ;; k" := (bind r (fun x => k))
  (at level 61, r at next level, right associativity).

(** [parts[i]]. *)
Definition item (parts : list string) (i : nat) : result string :=
  match nth_error parts i with
  | Some field => Ok field
  | None => Raise IndexError
  end.

Section Demultiplexer.

(** The values of Python's [float], and the builtins [int(text)] and
    [float(text)] on text; [None] stands for their [ValueError]. *)
Variable float : Type.
Variable py_int : string -> option Z.
Variable py_float : string -> option float.

Definition to_int (text : string) : result Z :=
  match py_int text with
  | Some v => Ok v
  | None => Raise ValueError
  end.

Definition to_float (text : string) : result float :=
  match py_float text with
  | Some v => Ok v
  | None => Raise ValueError
  end.

(** The six values of a row of the IMU log. *)
Record imu_values : Type := {
  accel_x : float; accel_y : float; accel_z : float;
  gyro_x : float; gyro_y : float; gyro_z : float
}.

Inductive message : Type :=
| RecordsCollected (ecg_count imu_count : nat)     (* line 91 *)
| SkippingInvalidData (line : string) (e : exn).   (* lines 96-97 *)

(** The two logs as rows (the text of a row joins the timestamp and the
    values with commas), the counters, and the console. *)
Record state : Type := {
  ecg_file : list (string * Z);
  imu_file : list (string * imu_values);
  ecg_count : nat;
  imu_count : nat;
  last_stats_time : R;
  console : list message
}.

(** Lines 62-68. *)
Definition write_ecg (timestamp : string) (ecg_value : Z) (st : state) : state :=
  {| ecg_file := ecg_file st ++ [(timestamp, ecg_value)];
     imu_file := imu_file st;
     ecg_count := S (ecg_count st); imu_count := imu_count st;
     last_stats_time := last_stats_time st; console := console st |}.

(** Lines 79-86. *)
Definition write_imu (timestamp : string) (values : imu_values) (st : state) : state :=
  {| ecg_file := ecg_file st;
     imu_file := imu_file st ++ [(timestamp, values)];
     ecg_count := ecg_count st; imu_count := S (imu_count st);
     last_stats_time := last_stats_time st; console := console st |}.

(** Lines 88-92; [current_time] is the result of [time.time()]. *)
Definition print_statistics (current_time : R) (st : state) : state :=
  if Rge_dec (current_time - last_stats_time st) 1 then
    {| ecg_file := ecg_file st; imu_file := imu_file st;
       ecg_count := ecg_count st; imu_count := imu_count st;
       last_stats_time := current_time;
       console := console st ++ [RecordsCollected (ecg_count st) (imu_count st)] |}
  else st.

(** Lines 55-92, the body of the [try]. *)
Definition try_body (timestamp : string) (current_time : R) (line : string)
  (st : state) : result state :=
  let parts := split_comma line in
  tag <- item parts 0 ;;
  if (tag =? "ECG") && (List.length parts =? 2)%nat then
    field <- item parts 1 ;;
    ecg_value <- to_int field ;;
    Ok (print_statistics current_time (write_ecg timestamp ecg_value st))
  else if (tag =? "IMU") && (List.length parts =? 7)%nat then
    f1 <- item parts 1 ;; accel_x <- to_float f1 ;;
    f2 <- item parts 2 ;; accel_y <- to_float f2 ;;
    f3 <- item parts 3 ;; accel_z <- to_float f3 ;;
    f4 <- item parts 4 ;; gyro_x <- to_float f4 ;;
    f5 <- item parts 5 ;; gyro_y <- to_float f5 ;;
    f6 <- item parts 6 ;; gyro_z <- to_float f6 ;;
    Ok (print_statistics current_time
          (write_imu timestamp
             {| accel_x := accel_x; accel_y := accel_y; accel_z := accel_z;
                gyro_x := gyro_x; gyro_y := gyro_y; gyro_z := gyro_z |} st))
  else Ok (print_statistics current_time st).

Definition skip (line : string) (e : exn) (st : state) : state :=
  {| ecg_file := ecg_file st; imu_file := imu_file st;
     ecg_count := ecg_count st; imu_count := imu_count st;
     last_stats_time := last_stats_time st;
     console := console st ++ [SkippingInvalidData line e] |}.

(** Lines 54-97: the [try] with its handler, which catches [ValueError] and
    [IndexError] and lets any other exception through. *)
Definition process_line (timestamp : string) (current_time : R) (line : string)
  (st : state) : result state :=
  match try_body timestamp current_time line st with
  | Ok st' => Ok st'
  | Raise ValueError => Ok (skip line ValueError st)
  | Raise IndexError => Ok (skip line IndexError st)
  | Raise e => Raise e
  end.

(** Lines 54-97 on one line of text after the other, each with the timestamp
    taken at line 51 and the time that line 89 reads.  The lines are text
    already: the [decode('utf-8')] and the [strip()] of line 48, which sit
    before the [try], are in [Stream.receive]. *)
Fixpoint run (arrivals : list (string * R * string)) (st : state) : result state :=
  match arrivals with
  | [] => Ok st
  | (timestamp, current_time, line) :: rest =>
      st' <- process_line timestamp current_time line st ;;
      run rest st'
  end.

(** *** The demultiplexer in the words of the specification *)

Inductive sensor_record : Type :=
| ECGRecord (value : Z)
| IMURecord (values : imu_values).

(** The record of a line: tag "ECG" and exactly two fields, the second an
    integer; or tag "IMU" and exactly seven fields, the last six floats; no
    record for any other line. *)
Definition record_of (line : string) : option sensor_record :=
  match split_comma line with
  | [tag; v] =>
      if tag =? "ECG" then option_map ECGRecord (py_int v) else None
  | [tag; v1; v2; v3; v4; v5; v6] =>
      if tag =? "IMU" then
        match py_float v1, py_float v2, py_float v3,
              py_float v4, py_float v5, py_float v6 with
        | Some a, Some b, Some c, Some d, Some e, Some f =>
            Some (IMURecord {| accel_x := a; accel_y := b; accel_z := c;
                               gyro_x := d; gyro_y := e; gyro_z := f |})
        | _, _, _, _, _, _ => None
        end
      else None
  | _ => None
  end.

(** What a line adds to the two logs. *)
Definition logs_after (timestamp : string) (line : string) (st : state)
  : list (string * Z) * list (string * imu_values) :=
  match record_of line with
  | Some (ECGRecord value) => (ecg_file st ++ [(timestamp, value)], imu_file st)
  | Some (IMURecord values) => (ecg_file st, imu_file st ++ [(timestamp, values)])
  | None => (ecg_file st, imu_file st)
  end.

End Demultiplexer.

Arguments ecg_file {float} s.
Arguments imu_file {float} s.
Arguments ecg_count {float} s.
Arguments imu_count {float} s.
Arguments console {float} s.
Arguments last_stats_time {float} s.
Arguments ECGRecord {float} value.
Arguments IMURecord {float} values.

End Leg.

(** ** The estimator in the words of the specification *)

Module Spec.

Import Face.

(** The Euclidean distance between two points. *)
Definition dist (p q : point) : R :=
  sqrt (Rsqr (IZR (fst p) - IZR (fst q)) + Rsqr (IZR (snd p) - IZR (snd q))).

(** Left face edge, right face edge and nose tip: indices 0, 16 and 30. *)
Definition left_pt (l : landmarks) : point := row l 0.
Definition right_pt (l : landmarks) : point := row l 16.
Definition nose_pt (l : landmarks) : point := row l 30.

(** "Fewer than 31 points, or the distance between point 0 and point 16 is
    below 10". *)
Definition degenerate (l : landmarks) : Prop :=
  (List.length l < 31)%nat \/ dist (left_pt l) (right_pt l) < 10.

(** The arithmetic mean. *)
Definition mean (xs : list R) : R := fold_right Rplus 0 xs / INR (List.length xs).

(** The window after a call of the smoother: the value is appended, and the
    oldest element is evicted when the length exceeds the configured size. *)
Definition window_after (v : R) (window : list R) (size : Z) : list R :=
  let appended := window ++ [v] in
  if (size <? Z.of_nat (List.length appended))%Z then skipn 1 appended
  else appended.

(** The last [n] elements of a list. *)
Definition lastn {A : Type} (n : nat) (l : list A) : list A :=
  skipn (List.length l - n) l.

(** A read that gives a frame. *)
Definition successful (r : read) : Prop := r <> None.

(** The accepted readings of a run of reads: the orientations of the frames
    that have a defined one, in order. *)
Definition accepted (reads : list read) : list R :=
  flat_map (fun r : read =>
              match r with
              | Some f =>
                  match frame_orientation f with
                  | Some o => [o]
                  | None => []
                  end
              | None => []
              end) reads.

(** Turns of the calibration loop in which the operator has not confirmed:
    the frame read and the key found by [cv2.waitKey], which is not SPACE. *)
Definition awaiting (turns : list (frame * Z)) : Prop :=
  Forall (fun t : frame * Z => Z.land (snd t) 255 <> 32%Z) turns.

(** The surroundings of a calibration run in which the operator confirms
    after the turns [turns]: the turn with the key [space] reads [f0], line
    125 reads [f1], and sampling starts on [reads] and [ks]. *)
Definition confirming (turns : list (frame * Z)) (f0 f1 : frame) (space : Z)
  (reads : list read) (ks : list Z) (out : list message) : world :=
  {| cam := map (fun t : frame * Z => Some (fst t)) turns
            ++ Some f0 :: Some f1 :: reads;
     keys := map snd turns ++ space :: ks;
     stdout := out |}.

(** The condition of the sample gate: no value logged yet, or a change above
    0.03, or at least half a second since the last write. *)
Definition due (current now : R) (s : session) : Prop :=
  last_orientation_value s = None
  \/ (exists previous : R,
        last_orientation_value s = Some previous
        /\ Rabs (current - previous) > 0.03)
  \/ now - last_write_time s >= 0.5.

(** Two landmark sets that differ in the nose tip (index 30) at most. *)
Definition same_but_nose (l1 l2 : landmarks) : Prop :=
  List.length l1 = List.length l2
  /\ forall i : nat, i <> 30%nat -> nth_error l1 i = nth_error l2 i.

End Spec.

(** ** Sample data *)

Module Sample.

Import Py Face.

(** A 68-point shape with the left edge at [(0, 0)], the right edge at
    [(100, 0)] and the nose tip at [(nose_x, 0)]. *)
Definition face_shape (nose_x : Z) : dshape :=
  {| x := 0; y := 0 |} :: repeat {| x := 0; y := 0 |} 15
  ++ {| x := 100; y := 0 |} :: repeat {| x := 0; y := 0 |} 13
  ++ {| x := nose_x; y := 0 |} :: repeat {| x := 0; y := 0 |} 37.

Definition face (nose_x : Z) : landmarks := shape_to_np (face_shape nose_x).

(** A read that shows the sample face. *)
Definition shows (nose_x : Z) : read := Some (Some (face_shape nose_x)).

(** Reads for a calibration: a frame without a face, five frames with the
    nose on the right edge and five with the nose in the middle. *)
Definition calibration_reads : list read :=
  Some None :: repeat (shows 100) 5 ++ repeat (shows 50) 5.

(** Successive calls of the smoother on one list object: the values returned,
    and the list after the last call. *)
Fixpoint smooth_each (values previous_values : list R) (window_size : Z)
  : result (list R * list R) :=
  match values with
  | [] => Ok ([], previous_values)
  | v :: rest =>
      match apply_moving_average v previous_values window_size with
      | Raise e => Raise e
      | Ok (smoothed, window) =>
          match smooth_each rest window window_size with
          | Raise e => Raise e
          | Ok (later, final) => Ok (smoothed :: later, final)
          end
      end
  end.

(** Successive turns of the main loop that reach line 242, each with its raw
    orientation and its clock reads. *)
Fixpoint track_each (turns : list (R * clock)) (s : session) : result session :=
  match turns with
  | [] => Ok s
  | (raw_orientation, now) :: rest =>
      match track raw_orientation now s with
      | Raise e => Raise e
      | Ok s' => track_each rest s'
      end
  end.

(** Clock reads a tenth of a second after the start of the session. *)
Definition early : clock :=
  {| time_time := 0.1; datetime_now := "2025-01-01 12:00:00.100" |}.

(** A session that differs from a fresh one in its smoothing window only. *)
Definition session_with_history (history : list R) : session :=
  {| calibrated := false; center_offset := 0;
     last_orientation_value := None; last_write_time := 0;
     orientation_history := history; csvfile := [] |}.

(** The main loop reads a frame and finds the key [c]; the operator then
    confirms at once, and the calibration samples [calibration_reads]. *)
Definition pressing_c : world :=
  {| cam := Some None :: Some None :: Some None :: calibration_reads;
     keys := [99%Z; 32%Z];
     stdout := [] |}.

End Sample.

(** ** Sample parsers

    Stand-ins for [int] and [float] on plain decimal text, with the
    rationals for the floats: they agree with the builtins on the lines used
    as examples. *)

Module LegSample.

Local Open Scope string_scope.

Definition digit (c : ascii) : option Z :=
  let n := Z.of_nat (nat_of_ascii c) in
  if ((48 <=? n) && (n <=? 57))%Z then Some (n - 48)%Z else None.

Fixpoint digits_from (acc : Z) (text : string) : option Z :=
  match text with
  | EmptyString => Some acc
  | String c rest =>
      match digit c with
      | Some d => digits_from (10 * acc + d)%Z rest
      | None => None
      end
  end.

Definition natural (text : string) : option Z :=
  match text with
  | EmptyString => None
  | String _ _ => digits_from 0%Z text
  end.

Definition decimal_int (text : string) : option Z :=
  match text with
  | String "-" rest => option_map Z.opp (natural rest)
  | String "+" rest => natural rest
  | _ => natural text
  end.

Fixpoint cut_at_point (text : string) : string * option string :=
  match text with
  | EmptyString => (EmptyString, None)
  | String c rest =>
      if Ascii.eqb c "." then (EmptyString, Some rest)
      else let (whole, fraction) := cut_at_point rest in (String c whole, fraction)
  end.

Definition decimal_float (text : string) : option Q :=
  let (whole, fraction) := cut_at_point text in
  match natural whole, fraction with
  | Some w, None => Some (inject_Z w)
  | Some w, Some digits =>
      match natural digits with
      | Some n =>
          let scale := (10 ^ Z.of_nat (String.length digits))%Z in
          Some (Qmake (w * scale + n) (Z.to_pos scale))
      | None => None
      end
  | None, _ => None
  end.

(** An empty pair of logs. *)
Definition fresh : Leg.state Q :=
  {| Leg.ecg_file := []; Leg.imu_file := [];
     Leg.ecg_count := 0; Leg.imu_count := 0;
     Leg.last_stats_time := 0; Leg.console := [] |}.

(** A stand-in for [decode('utf-8')] on bytes below 128, where UTF-8 is
    ASCII; it gives no text for any other byte, as UTF-8 does for the lone
    byte [ff] of the example. *)
Definition decode_ascii (raw : list Byte.byte) : option string :=
  if forallb (fun b : Byte.byte => (Byte.to_N b <? 128)%N) raw
  then Some (string_of_list_byte raw) else None.

(** The characters that [strip()] removes from ASCII text. *)
Definition whitespace (c : ascii) : bool :=
  let n := nat_of_ascii c in
  ((9 <=? n) && (n <=? 13) || (28 <=? n) && (n <=? 32))%nat.

Fixpoint lstrip (text : string) : string :=
  match text with
  | EmptyString => EmptyString
  | String c rest => if whitespace c then lstrip rest else text
  end.

Fixpoint rstrip (text : string) : string :=
  match text with
  | EmptyString => EmptyString
  | String c rest =>
      match rstrip rest with
      | EmptyString => if whitespace c then EmptyString else String c EmptyString
      | kept => String c kept
      end
  end.

(** A stand-in for [strip()] on ASCII text. *)
Definition strip (text : string) : string := rstrip (lstrip text).

End LegSample.

(** ** The smoother and the estimator in binary64

    The same functions on IEEE 754 doubles, with the rounding that Python's
    floats have: the smoother to run the example of the specification, the
    estimator because its branch is chosen by a comparison of rounded
    numbers. *)

Module Binary64.

Import Py Floats.

#[local] Set Warnings "-inexact-float".

Definition float : Type := PrimFloat.float.

Definition sum (xs : list float) : float := fold_left PrimFloat.add xs 0%float.

Definition apply_moving_average
  (current_value : float) (previous_values : list float) (window_size : Z)
  : result (float * list float) :=
  let appended := previous_values ++ [current_value] in
  let kept :=
    if (Z.of_nat (List.length appended) >? window_size)%Z
    then tl appended else appended in
  match kept with
  | [] => Raise ZeroDivisionError
  | _ :: _ =>
      Ok (PrimFloat.div (sum kept)
            (PrimFloat.of_uint63 (Uint63.of_Z (Z.of_nat (List.length kept)))),
          kept)
  end.

Fixpoint smooth_each (values previous_values : list float) (window_size : Z)
  : result (list float * list float) :=
  match values with
  | [] => Ok ([], previous_values)
  | v :: rest =>
      match apply_moving_average v previous_values window_size with
      | Raise e => Raise e
      | Ok (smoothed, window) =>
          match smooth_each rest window window_size with
          | Raise e => Raise e
          | Ok (later, final) => Ok (smoothed :: later, final)
          end
      end
  end.

Definition inputs : list float := [0.2; 0.4; 0.6; 0.8; 1.0; 1.2]%float.
Definition final_window : list float := [0.4; 0.6; 0.8; 1.0; 1.2]%float.
Definition final_mean : float := 0.8%float.

(** *** [calculate_face_orientation] on doubles *)

Local Open Scope float_scope.

(** An entry of the integer array as a double, as [np.linalg.norm] makes it
    with [astype(float)]; exact for every difference of pixel positions. *)
Definition of_int (z : Z) : float :=
  if (z <? 0)%Z then - PrimFloat.of_uint63 (Uint63.of_Z (- z))
  else PrimFloat.of_uint63 (Uint63.of_Z z).

(** [np.linalg.norm(p - q)] for two rows: the difference is taken on the
    integers, and the norm is [sqrt(x.dot(x))] on the doubles. *)
Definition norm_diff (p q : Face.point) : float :=
  let dx := of_int (fst p - fst q) in
  let dy := of_int (snd p - snd q) in
  PrimFloat.sqrt (dx * dx + dy * dy).

Definition distance_to_left (l : Face.landmarks) : float :=
  norm_diff (Face.row l 30) (Face.row l 0).
Definition distance_to_right (l : Face.landmarks) : float :=
  norm_diff (Face.row l 30) (Face.row l 16).
Definition face_width (l : Face.landmarks) : float :=
  norm_diff (Face.row l 16) (Face.row l 0).

Definition relative_pos (l : Face.landmarks) : float :=
  distance_to_left l / (distance_to_left l + distance_to_right l).

(** [min(a, b)] and [max(a, b)] of Python, by the comparisons they make. *)
Definition min (a b : float) : float := if b <? a then b else a.
Definition max (a b : float) : float := if a <? b then b else a.

(** [np.sign]: 1, -1 or 0, and the argument itself when it is not a
    number. *)
Definition sign (x : float) : float :=
  if 0 <? x then 1 else if x <? 0 then -1 else if x =? 0 then 0 else x.

Definition clamp (x : float) : float := max (-1) (min 1 x).

Section Estimator.

(** [pow] on two doubles is the function of the C library: it is left
    open here, and nothing below depends on the values it returns. *)
Variable pow : float -> float -> float.

(** Lines 49-57. *)
Definition response (relative_pos : float) : float :=
  let orientation :=
    if PrimFloat.abs (relative_pos - 0.5) <? 0.05
    then (relative_pos - 0.5) * 10
    else sign (relative_pos - 0.5) * pow (PrimFloat.abs (relative_pos - 0.5) * 2) 0.8
  in clamp orientation.

Definition calculate_face_orientation (landmarks_np : Face.landmarks)
  : option float :=
  if (List.length landmarks_np <? 31)%nat then None
  else if face_width landmarks_np <? 10 then None
  else Some (response (relative_pos landmarks_np)).

End Estimator.

(** A [pow] that returns not-a-number, for the examples in which the
    estimator stays in the dead zone and so makes no call of [pow]. *)
Definition pow_unused (x y : float) : float := nan.

(** A landmark set given by its three points: left face edge, right face
    edge, nose tip. *)
Definition face_of (left right nose : Face.point) : Face.landmarks :=
  left :: repeat (0%Z, 0%Z) 15 ++ right :: repeat (0%Z, 0%Z) 13 ++ [nose].

End Binary64.

(** ** Changes of the landmark set *)

Module Geometry.

Import Face.

(** Every landmark moved by the same vector. *)
Definition translate (a b : Z) (l : landmarks) : landmarks :=
  map (fun p : point => (fst p + a, snd p + b)%Z) l.

End Geometry.

(** ** The loop of [main] *)

Module Program.

Import Py Face.

(** Lines 203-329, the [while True] of [main].  [clocks turn] is what the
    clock gives during the turn [turn].  Every turn that goes on has taken a
    read, so the fuel [S (length (cam w))] is never used up. *)
Fixpoint main_loop (fuel : nat) (clocks : nat -> clock) (turn : nat)
  (w : world) (s : session) : option (result session * world) :=
  match fuel with
  | O => None
  | S fuel =>
      match main_turn (clocks turn) w s with
      | None => None
      | Some (Raise e, w) => Some (Raise e, w)
      | Some (Ok (Break, s), w) => Some (Ok s, w)
      | Some (Ok (Continue, s), w) => main_loop fuel clocks (S turn) w s
      end
  end.

(** Lines 194-329: the session from its first values to the end of the
    loop. *)
Definition run_session (start_time : R) (clocks : nat -> clock) (w : world)
  : option (result session * world) :=
  main_loop (S (List.length (cam w))) clocks 0 w (initial_session start_time).

(** The number from which the last row of the log was printed. *)
Definition last_logged (s : session) : option R :=
  match rev (csvfile s) with
  | [] => None
  | row :: _ => Some (orientation row)
  end.

(** What holds of the session at every turn. *)
Record sound (s : session) : Prop := {
  window_short : (List.length (orientation_history s) <= 5)%nat;
  window_values : Forall (fun v : R => -2 <= v <= 2) (orientation_history s);
  offset_range : -1 <= center_offset s <= 1;
  rows_range : Forall (fun row : csv_row => -1 <= orientation row <= 1) (csvfile s);
  last_is_logged : last_orientation_value s = last_logged s
}.

End Program.

(** ** Lines as text, and the rows a stream of lines gives *)

Module Stream.

Import Py.

Local Open Scope string_scope.
Local Open Scope list_scope.

(** [",".join(fields)]. *)
Fixpoint join_comma (fields : list string) : string :=
  match fields with
  | [] => EmptyString
  | [field] => field
  | field :: rest => field ++ "," ++ join_comma rest
  end.

(** No comma in the text. *)
Fixpoint comma_free (text : string) : bool :=
  match text with
  | EmptyString => true
  | String c rest => negb (Ascii.eqb c ",") && comma_free rest
  end.

(** The number of commas of the text. *)
Fixpoint commas (text : string) : nat :=
  match text with
  | EmptyString => 0
  | String c rest => (if Ascii.eqb c "," then 1 else 0) + commas rest
  end.

(** A known tag with its number of fields: the lines that reach a parse. *)
Definition recognised (line : string) : bool :=
  match Leg.split_comma line with
  | [tag; _] => tag =? "ECG"
  | [tag; _; _; _; _; _; _] => tag =? "IMU"
  | _ => false
  end.

Section Rows.

Variable float : Type.
Variable py_int : string -> option Z.
Variable py_float : string -> option float.

(** The rows that the arrivals add to the ECG log, in order of arrival. *)
Definition ecg_rows (arrivals : list (string * R * string)) : list (string * Z) :=
  flat_map
    (fun arrival : string * R * string =>
       match Leg.record_of float py_int py_float (snd arrival) with
       | Some (Leg.ECGRecord value) => [(fst (fst arrival), value)]
       | _ => []
       end) arrivals.

(** The rows that the arrivals add to the IMU log, in order of arrival. *)
Definition imu_rows (arrivals : list (string * R * string))
  : list (string * Leg.imu_values float) :=
  flat_map
    (fun arrival : string * R * string =>
       match Leg.record_of float py_int py_float (snd arrival) with
       | Some (Leg.IMURecord values) => [(fst (fst arrival), values)]
       | _ => []
       end) arrivals.

(** The counters tell the numbers of rows of the two logs. *)
Definition counted (st : Leg.state float) : Prop :=
  Leg.ecg_count st = List.length (Leg.ecg_file st)
  /\ Leg.imu_count st = List.length (Leg.imu_file st).

(** *** The loop from the bytes of the serial port

    Line 48 turns the bytes of [ser.readline()] into text with
    [decode('utf-8')] and [strip()], before the [try] of line 54.  Both are
    builtins on Unicode text: [decode] gives no text for bytes that are not
    UTF-8 and raises [UnicodeDecodeError] instead. *)
Variable decode : list Byte.byte -> option string.
Variable strip : string -> string.

(** How the loop stands: [Polling], every arrival was handled and the loop
    waits for more; [UnicodeDecodeError], raised at line 48, outside the
    [try], so that the loop and [main] end; [Escaped], an exception of the
    [try] that line 94 does not catch. *)
Inductive ending : Type :=
| Polling (st : Leg.state float)
| UnicodeDecodeError (st : Leg.state float)
| Escaped (e : exn) (st : Leg.state float).

(** Lines 45-100 on the arrivals: the timestamp of line 51, the time read at
    line 89, and the bytes that [ser.readline()] returns.  The timestamp is
    taken after the decoding, so none is used for a line that fails it.  The
    arrivals are the reads that return: a failure of the port
    ([serial.SerialException]) and the operator's Ctrl+C, which also end the
    loop, are events of the surroundings and have no arrival. *)
Fixpoint receive (arrivals : list (string * R * list Byte.byte))
  (st : Leg.state float) : ending :=
  match arrivals with
  | [] => Polling st
  | (timestamp, current_time, raw) :: rest =>
      match decode raw with
      | None => UnicodeDecodeError st
      | Some text =>
          match Leg.process_line float py_int py_float
                  timestamp current_time (strip text) st with
          | Ok st' => receive rest st'
          | Raise e => Escaped e st
          end
      end
  end.

(** The lines that reach the [try], as text: those before the first arrival
    that does not decode. *)
Fixpoint decoded (arrivals : list (string * R * list Byte.byte))
  : list (string * R * string) :=
  match arrivals with
  | [] => []
  | (timestamp, current_time, raw) :: rest =>
      match decode raw with
      | None => []
      | Some text => (timestamp, current_time, strip text) :: decoded rest
      end
  end.

(** Every arrival decodes. *)
Definition all_decode (arrivals : list (string * R * list Byte.byte)) : bool :=
  forallb (fun arrival : string * R * list Byte.byte =>
             match decode (snd arrival) with
             | Some _ => true
             | None => false
             end) arrivals.

End Rows.

Arguments Polling {float} st.
Arguments UnicodeDecodeError {float} st.
Arguments Escaped {float} e st.

End Stream.

(** ** Timestamps

    [get_formatted_timestamp] of capture2.py, and line 255 of face1.py with
    the same format: [strftime('%Y-%m-%d %H:%M:%S.%f')[:-3]] on
    [datetime.now()]. *)

Module Stamp.

Local Open Scope string_scope.

(** The fields of a [datetime]. *)
Record datetime : Type := {
  year : Z; month : Z; day : Z;
  hour : Z; minute : Z; second : Z; microsecond : Z
}.

(** The ranges of the fields; the year has its four digits. *)
Definition valid (d : datetime) : Prop :=
  (1000 <= year d <= 9999 /\ 1 <= month d <= 12 /\ 1 <= day d <= 31
   /\ 0 <= hour d <= 23 /\ 0 <= minute d <= 59 /\ 0 <= second d <= 59
   /\ 0 <= microsecond d <= 999999)%Z.

Definition digit_char (d : Z) : ascii := ascii_of_nat (48 + Z.to_nat d).

(** A number in [width] decimal digits, with leading zeros: what [%m],
    [%d], [%H], [%M], [%S] (two digits), [%Y] (four) and [%f] (six) print. *)
Fixpoint zero_padded (width : nat) (n : Z) : string :=
  match width with
  | O => EmptyString
  | S w => zero_padded w (n / 10) ++ String (digit_char (n mod 10)) EmptyString
  end.

(** [strftime('%Y-%m-%d %H:%M:%S.%f')]. *)
Definition strftime (d : datetime) : string :=
  zero_padded 4 (year d) ++ "-" ++ zero_padded 2 (month d) ++ "-"
  ++ zero_padded 2 (day d) ++ " " ++ zero_padded 2 (hour d) ++ ":"
  ++ zero_padded 2 (minute d) ++ ":" ++ zero_padded 2 (second d) ++ "."
  ++ zero_padded 6 (microsecond d).

(** [text[:-3]]: all but the last three characters. *)
Definition but_last_three (text : string) : string :=
  substring 0 (String.length text - 3) text.

Definition get_formatted_timestamp (now : datetime) : string :=
  but_last_three (strftime now).

(** The date and the time of day up to the second, as they are printed. *)
Definition to_the_second (d : datetime) : string :=
  zero_padded 4 (year d) ++ "-" ++ zero_padded 2 (month d) ++ "-"
  ++ zero_padded 2 (day d) ++ " " ++ zero_padded 2 (hour d) ++ ":"
  ++ zero_padded 2 (minute d) ++ ":" ++ zero_padded 2 (second d) ++ ".".

(** What a timestamp shows of an instant, from the year down to the
    millisecond. *)
Definition shown (d : datetime) : list Z :=
  [year d; month d; day d; hour d; minute d; second d;
   (microsecond d / 1000)%Z].

(** The order of two lists of numbers by their first difference. *)
Fixpoint earlier (xs ys : list Z) : comparison :=
  match xs, ys with
  | [], [] => Eq
  | [], _ :: _ => Lt
  | _ :: _, [] => Gt
  | x :: xs, y :: ys =>
      match (x ?= y)%Z with
      | Eq => earlier xs ys
      | c => c
      end
  end.

(** The digits of a field of the stamp, read as a number. *)
Definition field (start len : nat) (stamp : string) : option Z :=
  LegSample.natural (substring start len stamp).

End Stamp.

(** ** What [main] draws from the orientation *)

Module Display.

Import Py.

(** [int(x)] on a float: the integer part, toward zero. *)
Definition int_of (v : R) : Z :=
  if Rle_dec 0 v then Int_part v else (- Int_part (- v))%Z.

(** Lines 269-274: the colour, as the three channels of the tuple. *)
Definition color (final_orientation : R) : Z * Z * Z :=
  if Rgt_dec final_orientation 0 then
    (0%Z, int_of (255 * (1 - final_orientation)), int_of (255 * final_orientation))
  else
    (int_of (255 * Rabs final_orientation),
     int_of (255 * (1 - Rabs final_orientation)), 0%Z).

(** Lines 299 and 305: the column of the position indicator on the bar. *)
Definition pos_x (final_orientation : R) (frame_width : Z) : Z :=
  let bar_width := (frame_width - 40)%Z in
  int_of (20 + IZR bar_width / 2 + final_orientation * IZR bar_width / 2).

End Display.

(** * Properties *)

Import Py Face.

(** ** Facts about the builtins *)

Ltac case_clamp :=
  unfold clamp, Py.max, Py.min;
  repeat match goal with
         | |- context [Rlt_dec ?a ?b] => destruct (Rlt_dec a b)
         | |- context [Rgt_dec ?a ?b] => destruct (Rgt_dec a b)
         end; try lra.

Lemma clamp_range (v : R) : -1 <= clamp v <= 1.
Proof. case_clamp. Qed.

Lemma clamp_id (v : R) : -1 <= v <= 1 -> clamp v = v.
Proof. intros [Hl Hu]. case_clamp. Qed.

Lemma clamp_mono (u v : R) : u <= v -> clamp u <= clamp v.
Proof. intros Huv. case_clamp. Qed.

Lemma sum_from (xs : list R) (a : R) : fold_left Rplus xs a = a + sum xs.
Proof.
  unfold sum. revert a.
  induction xs as [| v xs IH]; intros a; simpl.
  - lra.
  - rewrite (IH (a + v)), (IH (0 + v)). lra.
Qed.

Lemma sum_cons (v : R) (xs : list R) : sum (v :: xs) = v + sum xs.
Proof. unfold sum at 1. simpl. rewrite sum_from. lra. Qed.

Lemma sum_nil : sum [] = 0.
Proof. reflexivity. Qed.

Lemma sum_app (xs ys : list R) : sum (xs ++ ys) = sum xs + sum ys.
Proof.
  induction xs as [| v xs IH]; simpl.
  - rewrite sum_nil. lra.
  - rewrite !sum_cons, IH. lra.
Qed.

Lemma sign_pos (v : R) : 0 < v -> sign v = 1.
Proof.
  intros Hv. unfold sign.
  destruct (Rlt_dec v 0); [lra |]. destruct (Rgt_dec v 0); lra.
Qed.

Lemma pow_pos (v e : R) : 0 < v -> pow v e = Rpower v e.
Proof.
  intros Hv. unfold pow. destruct (Req_dec_T v 0); [lra | reflexivity].
Qed.

(** [Rpower v (4/5)] is the fifth root of [v^4]. *)
Lemma Rpower_08_pow5 (v : R) : 0 < v -> (Rpower v 0.8) ^ 5 = v ^ 4.
Proof.
  intros Hv.
  rewrite <- (Rpower_pow 5 (Rpower v 0.8)) by apply exp_pos.
  rewrite Rpower_mult.
  replace (0.8 * INR 5) with (INR 4) by (simpl; lra).
  apply Rpower_pow; assumption.
Qed.

Lemma pow5_lt_inv (a b : R) : 0 <= a -> 0 <= b -> a ^ 5 < b ^ 5 -> a < b.
Proof.
  intros Ha Hb H.
  destruct (Rlt_dec a b) as [Hlt | Hge]; [assumption | exfalso].
  assert (Hba : b <= a) by lra.
  assert (b ^ 5 <= a ^ 5) by (apply pow_incr; lra).
  lra.
Qed.

(** ** The orientation estimator *)

Lemma norm_diff_dist (p q : point) : norm_diff p q = Spec.dist p q.
Proof.
  unfold norm_diff, Spec.dist, Rsqr. now rewrite !minus_IZR.
Qed.

Lemma dist_dist_euc (p q : point) :
  Spec.dist p q = dist_euc (IZR (fst p)) (IZR (snd p)) (IZR (fst q)) (IZR (snd q)).
Proof. reflexivity. Qed.

Lemma dist_sym (p q : point) : Spec.dist p q = Spec.dist q p.
Proof. rewrite !dist_dist_euc. apply distance_symm. Qed.

Lemma dist_triangle (p q m : point) :
  Spec.dist p q <= Spec.dist p m + Spec.dist m q.
Proof. rewrite !dist_dist_euc. apply triangle. Qed.

Lemma dist_nonneg (p q : point) : 0 <= Spec.dist p q.
Proof. unfold Spec.dist. apply sqrt_pos. Qed.

Lemma face_width_dist (l : landmarks) :
  face_width l = Spec.dist (Spec.left_pt l) (Spec.right_pt l).
Proof. unfold face_width. rewrite norm_diff_dist. apply dist_sym. Qed.

(** The face is at most as wide as the two distances from the nose. *)
Lemma face_width_le_sum (l : landmarks) :
  face_width l <= distance_to_left l + distance_to_right l.
Proof.
  unfold face_width, distance_to_left, distance_to_right.
  rewrite !norm_diff_dist.
  rewrite (dist_sym (row l 30) (row l 16)), Rplus_comm.
  apply dist_triangle.
Qed.

Lemma calculate_none_iff (l : landmarks) :
  calculate_face_orientation l = None <-> Spec.degenerate l.
Proof.
  unfold calculate_face_orientation, Spec.degenerate.
  rewrite <- face_width_dist.
  destruct (Nat.ltb_spec (List.length l) 31) as [Hlen | Hlen].
  - split; auto.
  - destruct (Rlt_dec (face_width l) 10) as [Hw | Hw].
    + split; auto.
    + split; [discriminate | intros [H | H]; [lia | contradiction]].
Qed.

Lemma calculate_some (l : landmarks) :
  ~ Spec.degenerate l ->
  calculate_face_orientation l = Some (response (relative_pos l)).
Proof.
  intros Hok.
  destruct (calculate_face_orientation l) as [o |] eqn:E.
  - unfold calculate_face_orientation in E.
    destruct (List.length l <? 31)%nat; [discriminate |].
    destruct (Rlt_dec (face_width l) 10); [discriminate | now rewrite E].
  - apply calculate_none_iff in E. contradiction.
Qed.

Lemma response_center : response 0.5 = 0.
Proof.
  unfold response.
  replace (0.5 - 0.5) with 0 by lra. rewrite Rabs_R0.
  destruct (Rlt_dec 0 0.05); [| lra].
  rewrite Rmult_0_l. apply clamp_id. lra.
Qed.

(** In the dead zone the clamp leaves [d * 10] as it is. *)
Lemma response_dead_zone (r : R) :
  Rabs (r - 0.5) < 0.05 -> response r = (r - 0.5) * 10.
Proof.
  intros Hin. unfold response.
  destruct (Rlt_dec (Rabs (r - 0.5)) 0.05); [| contradiction].
  apply clamp_id. apply Rabs_def2 in Hin. lra.
Qed.

Lemma Rpower_le_1 (b e : R) : 0 < b <= 1 -> 0 <= e -> Rpower b e <= 1.
Proof.
  intros Hb He.
  assert (H1 : Rpower 1 e = 1).
  { unfold Rpower. now rewrite ln_1, Rmult_0_r, exp_0. }
  apply Rle_trans with (Rpower 1 e); [| lra].
  apply Rle_Rpower_l; [assumption | lra].
Qed.

(** To the right of the dead zone the response is the power law. *)
Lemma response_right (r : R) :
  0.55 <= r <= 1 -> response r = Rpower (2 * (r - 0.5)) 0.8.
Proof.
  intros [Hlo Hhi]. unfold response.
  rewrite (Rabs_pos_eq (r - 0.5)) by lra.
  destruct (Rlt_dec (r - 0.5) 0.05); [lra |].
  rewrite sign_pos, pow_pos, Rmult_1_l, (Rmult_comm _ 2) by lra.
  apply clamp_id. split.
  - pose proof (exp_pos (0.8 * ln (2 * (r - 0.5)))). unfold Rpower. lra.
  - apply Rpower_le_1; lra.
Qed.

(** *** The sample faces *)

Lemma norm_diff_horizontal (a b : Z) :
  (b <= a)%Z -> norm_diff (a, 0%Z) (b, 0%Z) = IZR a - IZR b.
Proof.
  intros Hba. unfold norm_diff. cbn [fst snd].
  rewrite Z.sub_diag, Rmult_0_l, Rplus_0_r, minus_IZR.
  apply sqrt_square. apply IZR_le in Hba. lra.
Qed.

Lemma sample_length (n : Z) : List.length (Sample.face n) = 68%nat.
Proof. reflexivity. Qed.

Lemma sample_width (n : Z) : face_width (Sample.face n) = 100.
Proof.
  unfold face_width.
  change (row (Sample.face n) 16) with (100%Z, 0%Z).
  change (row (Sample.face n) 0) with (0%Z, 0%Z).
  rewrite norm_diff_horizontal by lia. lra.
Qed.

Lemma sample_left (n : Z) : (0 <= n)%Z -> distance_to_left (Sample.face n) = IZR n.
Proof.
  intros Hn. unfold distance_to_left.
  change (row (Sample.face n) 30) with (n, 0%Z).
  change (row (Sample.face n) 0) with (0%Z, 0%Z).
  rewrite norm_diff_horizontal by lia. lra.
Qed.

Lemma sample_right (n : Z) :
  (n <= 100)%Z -> distance_to_right (Sample.face n) = 100 - IZR n.
Proof.
  intros Hn. unfold distance_to_right.
  change (row (Sample.face n) 30) with (n, 0%Z).
  change (row (Sample.face n) 16) with (100%Z, 0%Z).
  rewrite norm_diff_dist, dist_sym, <- norm_diff_dist.
  now rewrite norm_diff_horizontal by lia.
Qed.

Lemma sample_relative_pos (n : Z) :
  (0 <= n <= 100)%Z -> relative_pos (Sample.face n) = IZR n / 100.
Proof.
  intros [H0 H100]. unfold relative_pos.
  rewrite sample_left, sample_right by assumption.
  f_equal. lra.
Qed.

Lemma sample_not_degenerate (n : Z) : ~ Spec.degenerate (Sample.face n).
Proof.
  intros [Hlen | Hw].
  - rewrite sample_length in Hlen. lia.
  - rewrite <- face_width_dist, sample_width in Hw. lra.
Qed.

Lemma sample_orientation (n : Z) :
  (0 <= n <= 100)%Z ->
  calculate_face_orientation (Sample.face n) = Some (response (IZR n / 100)).
Proof.
  intros Hn.
  rewrite calculate_some by apply sample_not_degenerate.
  now rewrite sample_relative_pos.
Qed.

Lemma sample_50 : calculate_face_orientation (Sample.face 50) = Some 0.
Proof.
  rewrite sample_orientation by lia.
  replace (50 / 100) with 0.5 by lra. now rewrite response_center.
Qed.

Lemma sample_54 : calculate_face_orientation (Sample.face 54) = Some 0.4.
Proof.
  rewrite sample_orientation by lia.
  rewrite response_dead_zone.
  - f_equal. lra.
  - apply Rabs_def1; lra.
Qed.

Lemma sample_60 :
  calculate_face_orientation (Sample.face 60) = Some (Rpower 0.2 0.8).
Proof.
  rewrite sample_orientation by lia.
  rewrite response_right by lra.
  do 2 f_equal. lra.
Qed.

Lemma Rpower_02_08_lt : Rpower 0.2 0.8 < 0.4.
Proof.
  apply pow5_lt_inv.
  - left. apply exp_pos.
  - lra.
  - rewrite Rpower_08_pow5 by lra. lra.
Qed.

Lemma sample_same_but_nose (n m : Z) :
  Spec.same_but_nose (Sample.face n) (Sample.face m).
Proof.
  split; [reflexivity |].
  intros i Hi.
  do 30 (destruct i as [| i]; [reflexivity |]).
  destruct i as [| i]; [lia |].
  do 37 (destruct i as [| i]; [reflexivity |]).
  reflexivity.
Qed.

(** *** The estimator on doubles *)

Section Doubles.

Import Floats.

#[local] Set Warnings "-inexact-float".

Local Open Scope float_scope.

Lemma float_mul_comm (a b : float) : a * b = b * a.
Proof.
  apply Prim2SF_inj. rewrite !mul_spec. unfold SF64mul.
  destruct (Prim2SF a) as [sa | sa | | sa ma ea],
           (Prim2SF b) as [sb | sb | | sb mb eb];
    cbn [SFmul];
    rewrite ?(xorb_comm sa sb), ?(Pos.mul_comm ma mb), ?(Z.add_comm ea eb);
    reflexivity.
Qed.

(** A double and its opposite have the same square. *)
Lemma float_square_opp (a : float) : (- a) * (- a) = a * a.
Proof.
  apply Prim2SF_inj. rewrite !mul_spec, !opp_spec. unfold SF64mul.
  destruct (Prim2SF a) as [[|] | [|] | | [|] m e]; reflexivity.
Qed.

Lemma of_int_square_opp (z : Z) :
  Binary64.of_int (- z) * Binary64.of_int (- z)
  = Binary64.of_int z * Binary64.of_int z.
Proof.
  unfold Binary64.of_int.
  destruct z as [| p | p]; cbn [Z.opp Z.ltb Z.compare]; [reflexivity | |].
  - apply float_square_opp.
  - symmetry. apply float_square_opp.
Qed.

(** The computed distance of two landmarks does not depend on their
    order. *)
Lemma norm_diff_double_sym (p q : point) :
  Binary64.norm_diff p q = Binary64.norm_diff q p.
Proof.
  unfold Binary64.norm_diff. cbv zeta.
  replace (fst q - fst p)%Z with (- (fst p - fst q))%Z by lia.
  replace (snd q - snd p)%Z with (- (snd p - snd q))%Z by lia.
  now rewrite !of_int_square_opp.
Qed.

Lemma response_double_center (pow : float -> float -> float) :
  Binary64.response pow 0.5 = 0.
Proof. reflexivity. Qed.



(** The edge of the dead zone, as the doubles decide it.  With the face
    edges at 0 and 100 and the nose at 45 the real [|d|] is 0.05, the computed
    one is below it, and the dead zone applies; the same on a slanted face
    whose real [relative_pos] is 0.55.  At 54 the dead zone gives a little
    more than 0.4, and at 60 the power law is called at a little less than
    0.2. *)
Lemma dead_zone_edge (pow : float -> float -> float) :
  Binary64.calculate_face_orientation pow (Sample.face 45)
  = Some (-0.49999999999999989)
  /\ Binary64.calculate_face_orientation pow
       (Binary64.face_of (0, 0)%Z (20, 2)%Z (11, 11)%Z)
     = Some 0.49999999999999933
  /\ Binary64.calculate_face_orientation pow (Sample.face 54)
     = Some 0.40000000000000036
  /\ Binary64.calculate_face_orientation pow (Sample.face 60)
     = Some (Binary64.clamp (1 * pow 0.19999999999999996 0.8)).
Proof. repeat split; vm_compute; reflexivity. Qed.

End Doubles.

(** C4. Every value that the estimator returns lies in [-1, 1]. *)
Theorem estimator_range (l : landmarks) (o : R) :
  calculate_face_orientation l = Some o -> -1 <= o <= 1.
Proof.
  unfold calculate_face_orientation.
  destruct (List.length l <? 31)%nat; [discriminate |].
  destruct (Rlt_dec (face_width l) 10); [discriminate |].
  intros [= <-]. apply clamp_range.
Qed.

Lemma estimator_range_witness : -1 <= 0.4 <= 1.
Proof. exact (estimator_range (Sample.face 54) 0.4 sample_54). Defined.

(** C10. When the distance between point 0 and point 16 is at least 10, the
    denominator [distance_to_left + distance_to_right] of [relative_pos] is
    at least that distance (triangle inequality), so it is positive and the
    division is by a number other than zero. *)
Theorem denominator_positive (l : landmarks) :
  10 <= Spec.dist (Spec.left_pt l) (Spec.right_pt l) ->
  Spec.dist (Spec.left_pt l) (Spec.right_pt l)
    <= distance_to_left l + distance_to_right l
  /\ 0 < distance_to_left l + distance_to_right l
  /\ distance_to_left l + distance_to_right l <> 0.
Proof.
  intros Hw. rewrite <- face_width_dist in *.
  pose proof (face_width_le_sum l). repeat split; lra.
Qed.

Lemma denominator_positive_witness :
  0 < distance_to_left (Sample.face 50) + distance_to_right (Sample.face 50).
Proof.
  refine (proj1 (proj2 (denominator_positive (Sample.face 50) _))).
  rewrite <- face_width_dist, sample_width. lra.
Defined.

(** C2.  The code does not keep the monotonicity that the specification
    states and that the comments of lines 47-53 intend (a response that is
    smooth around the centre and grows toward the extremes): the two sample
    faces differ in the nose tip only, both pass the guards, their relative
    positions are 0.54 < 0.6 in [0.5, 1], and the orientation falls from 0.4
    (dead zone, gain 10) to 0.2 ^ 0.8 < 0.4 (power law).  Both inputs are far
    from the edge of the dead zone, and the doubles take the same branches
    ([dead_zone_edge]). *)
Lemma monotonicity_counterexample :
  Spec.same_but_nose (Sample.face 54) (Sample.face 60)
  /\ ~ Spec.degenerate (Sample.face 54)
  /\ ~ Spec.degenerate (Sample.face 60)
  /\ 0.5 <= relative_pos (Sample.face 54)
  /\ relative_pos (Sample.face 54) < relative_pos (Sample.face 60)
  /\ relative_pos (Sample.face 60) <= 1
  /\ exists o1 o2 : R,
       calculate_face_orientation (Sample.face 54) = Some o1
       /\ calculate_face_orientation (Sample.face 60) = Some o2
       /\ ~ o1 <= o2.
Proof.
  split; [apply sample_same_but_nose |].
  split; [apply sample_not_degenerate |].
  split; [apply sample_not_degenerate |].
  rewrite !sample_relative_pos by lia.
  split; [lra |]. split; [lra |]. split; [lra |].
  exists 0.4, (Rpower 0.2 0.8).
  split; [apply sample_54 |]. split; [apply sample_60 |].
  pose proof Rpower_02_08_lt. lra.
Qed.

(** ** The smoother *)

Lemma sum_fold_right (xs : list R) : sum xs = fold_right Rplus 0 xs.
Proof.
  induction xs as [| v xs IH]; [reflexivity |].
  rewrite sum_cons, IH. reflexivity.
Qed.

Lemma smoother_step (v : R) (w : list R) (n : Z) :
  Spec.window_after v w n <> [] ->
  apply_moving_average v w n
  = Ok (Spec.mean (Spec.window_after v w n), Spec.window_after v w n).
Proof.
  unfold apply_moving_average, Spec.window_after, Spec.mean.
  cbv zeta.
  rewrite Z.gtb_ltb.
  destruct (n <? Z.of_nat (List.length (w ++ [v])))%Z.
  - change (skipn 1 (w ++ [v])) with (tl (w ++ [v])).
    destruct (tl (w ++ [v])) as [| a k]; [contradiction |].
    now rewrite sum_fold_right.
  - destruct (w ++ [v]) as [| a k]; [contradiction |].
    now rewrite sum_fold_right.
Qed.

(** With room left the value is appended; a full window loses its oldest
    element and keeps its length. *)
Lemma window_after_cases (v : R) (w : list R) (n : Z) :
  ((Z.of_nat (List.length w) < n)%Z -> Spec.window_after v w n = w ++ [v])
  /\ ((n <= Z.of_nat (List.length w))%Z -> w <> [] ->
      Spec.window_after v w n = tl w ++ [v]).
Proof.
  unfold Spec.window_after. cbv zeta.
  rewrite length_app, Nat.add_1_r, Nat2Z.inj_succ.
  split; intros H.
  - destruct (Z.ltb_spec n (Z.succ (Z.of_nat (List.length w)))); [lia | reflexivity].
  - intros Hne.
    destruct (Z.ltb_spec n (Z.succ (Z.of_nat (List.length w)))); [| lia].
    destruct w as [| a w]; [contradiction | reflexivity].
Qed.

Lemma window_after_nonempty (v : R) (w : list R) (n : Z) :
  (1 <= n)%Z -> Spec.window_after v w n <> [].
Proof.
  intros Hn.
  destruct (window_after_cases v w n) as [Hroom Hfull].
  destruct (Z.lt_ge_cases (Z.of_nat (List.length w)) n) as [H | H].
  - rewrite Hroom by assumption. now destruct w.
  - assert (Hne : w <> []) by (destruct w; [simpl in H; lia | discriminate]).
    rewrite Hfull by assumption. now destruct (tl w).
Qed.

Lemma window_after_bounded (v : R) (w : list R) (n : Z) :
  (1 <= n)%Z -> (Z.of_nat (List.length w) <= n)%Z ->
  (Z.of_nat (List.length (Spec.window_after v w n)) <= n)%Z.
Proof.
  intros Hn Hw.
  destruct (window_after_cases v w n) as [Hroom Hfull].
  destruct (Z.lt_ge_cases (Z.of_nat (List.length w)) n) as [H | H].
  - rewrite Hroom, length_app by assumption. simpl. lia.
  - assert (Hne : w <> []) by (destruct w; [simpl in H; lia | discriminate]).
    rewrite Hfull, length_app by assumption.
    destruct w as [| a w]; [contradiction |]. simpl in *. lia.
Qed.

Lemma smooth_six :
  Sample.smooth_each [0.2; 0.4; 0.6; 0.8; 1.0; 1.2] [] 5
  = Ok ([0.2; 0.3; 0.4; 0.5; 0.6; 0.8], [0.4; 0.6; 0.8; 1.0; 1.2]).
Proof.
  unfold Sample.smooth_each, apply_moving_average.
  cbn [app List.length Z.of_nat Pos.of_succ_nat Pos.succ Z.gtb Z.compare
       Pos.compare Pos.compare_cont tl sum fold_left INR].
  repeat f_equal; lra.
Qed.

(** In binary64 the six inputs of the example leave the same window, and the
    last value returned is the double nearest to 0.8. *)
Lemma smooth_six_binary64 :
  match Binary64.smooth_each Binary64.inputs [] 5 with
  | Ok (returned, window) =>
      last returned Binary64.final_mean = Binary64.final_mean
      /\ List.length returned = 6%nat
      /\ window = Binary64.final_window
  | Raise _ => False
  end.
Proof. vm_compute. repeat split. Qed.

(** C6. The smoother appends the value, evicts the oldest element when the
    window has grown beyond the configured size, and returns the arithmetic
    mean of what the window then holds; a window with room left keeps all
    its elements, a full one loses its first.  With size 5 (the default) and
    the inputs 0.2, 0.4, 0.6, 0.8, 1.0, 1.2 fed to an empty window, the
    window ends as [0.4; 0.6; 0.8; 1.0; 1.2] and the last value returned is
    0.8. *)
Theorem smoother_contract :
  (forall (v : R) (w : list R) (n : Z),
      (1 <= n)%Z ->
      apply_moving_average v w n
      = Ok (Spec.mean (Spec.window_after v w n), Spec.window_after v w n)
      /\ ((Z.of_nat (List.length w) < n)%Z ->
          Spec.window_after v w n = w ++ [v])
      /\ (Z.of_nat (List.length w) = n ->
          Spec.window_after v w n = tl w ++ [v]))
  /\ default_window_size = 5%Z
  /\ Sample.smooth_each [0.2; 0.4; 0.6; 0.8; 1.0; 1.2] [] default_window_size
     = Ok ([0.2; 0.3; 0.4; 0.5; 0.6] ++ [0.8], [0.4; 0.6; 0.8; 1.0; 1.2]).
Proof.
  split; [| split; [reflexivity | exact smooth_six]].
  intros v w n Hn.
  split; [apply smoother_step, window_after_nonempty; assumption |].
  destruct (window_after_cases v w n) as [Hroom Hfull].
  split; [exact Hroom |].
  intros Hlen. apply Hfull; [lia |].
  destruct w; [simpl in Hlen; lia | discriminate].
Qed.

Lemma smoother_contract_witness :
  apply_moving_average 0.2 [] 5
  = Ok (Spec.mean (Spec.window_after 0.2 [] 5), Spec.window_after 0.2 [] 5).
Proof.
  refine (proj1 (proj1 smoother_contract 0.2 [] 5%Z _)). lia.
Defined.

(** A window of size zero or less cannot take a first value: the mean of
    the emptied list is a division by zero. *)
Lemma smoother_size_zero (v : R) (n : Z) :
  (n <= 0)%Z -> apply_moving_average v [] n = Raise ZeroDivisionError.
Proof.
  intros Hn. unfold apply_moving_average. simpl.
  destruct (Z.gtb_spec 1 n); [reflexivity | lia].
Qed.

(** ** Calibration *)

Lemma sampling_done (cam : list read) (keys : list Z) (n : nat) (s : R) :
  (10 <= n)%nat -> sampling cam keys n s = (n, s, (cam, keys)).
Proof.
  intros Hn.
  destruct cam; simpl; destruct (Nat.ltb_spec n 10); (lia || reflexivity).
Qed.

Lemma sampling_cam_length (cam : list read) (keys : list Z) (n : nat) (s : R) :
  (List.length (fst (snd (sampling cam keys n s))) <= List.length cam)%nat.
Proof.
  revert keys n s.
  induction cam as [| r cam IH]; intros keys n s; simpl.
  - destruct (n <? 10)%nat; simpl; lia.
  - destruct (n <? 10)%nat; [| simpl; lia].
    destruct r as [f |]; [| simpl; lia].
    destruct (frame_orientation f);
      match goal with |- context [sampling cam ?k ?m ?t] =>
        specialize (IH k m t) end; lia.
Qed.

Lemma sampling_step (f : frame) (cam : list read) (keys : list Z) (n : nat) (s : R) :
  (n < 10)%nat ->
  sampling (Some f :: cam) keys n s
  = match frame_orientation f with
    | Some o => sampling cam (tl keys) (S n) (s + o)
    | None => sampling cam (tl keys) n s
    end.
Proof.
  intros Hn. simpl. destruct (Nat.ltb_spec n 10); [reflexivity | lia].
Qed.

Lemma sampling_failed (tail : list read) (keys : list Z) (n : nat) (s : R) :
  (n < 10)%nat -> hd None tail = None ->
  sampling tail keys n s = (n, s, (tl tail, keys)).
Proof.
  intros Hn Htail.
  destruct tail as [| r tail]; simpl in *; destruct (Nat.ltb_spec n 10);
    subst; (lia || reflexivity).
Qed.

Lemma accepted_cons (f : frame) (reads : list read) :
  Spec.accepted (Some f :: reads)
  = match frame_orientation f with
    | Some o => o :: Spec.accepted reads
    | None => Spec.accepted reads
    end.
Proof.
  unfold Spec.accepted. simpl. now destruct (frame_orientation f).
Qed.

Lemma accepted_app (xs ys : list read) :
  Spec.accepted (xs ++ ys) = Spec.accepted xs ++ Spec.accepted ys.
Proof. unfold Spec.accepted. apply flat_map_app. Qed.

(** With no failed read on the way, sampling ends at the tenth accepted
    reading: the count is 10 and the sum is that of the first ten. *)
Lemma sampling_readings (pre rest : list read) (keys : list Z) (n : nat) (s : R) :
  Forall Spec.successful pre ->
  (n <= 10)%nat -> (10 <= n + List.length (Spec.accepted pre))%nat ->
  fst (sampling (pre ++ rest) keys n s)
  = (10%nat, s + sum (firstn (10 - n) (Spec.accepted pre))).
Proof.
  revert keys n s.
  induction pre as [| r pre IH]; intros keys n s Hok Hn Hten.
  - simpl in Hten. assert (n = 10%nat) by lia. subst n.
    rewrite sampling_done by lia. simpl. now rewrite sum_nil, Rplus_0_r.
  - destruct (Nat.eq_dec n 10) as [-> | Hlt].
    + rewrite sampling_done by lia. simpl. now rewrite sum_nil, Rplus_0_r.
    + inversion Hok as [| r' pre' Hr Hpre]; subst.
      destruct r as [f |]; [| now elim Hr].
      rewrite <- app_comm_cons, sampling_step by lia.
      rewrite accepted_cons in *.
      destruct (frame_orientation f) as [o |].
      * cbn [List.length] in Hten.
        rewrite IH by (assumption || lia).
        replace (10 - n)%nat with (S (10 - S n)) by lia.
        cbn [firstn]. rewrite sum_cons, Rplus_assoc. reflexivity.
      * apply IH; assumption || lia.
Qed.

(** A failed read before the tenth accepted reading ends sampling with the
    readings taken so far. *)
Lemma sampling_cut_short (pre tail : list read) (keys : list Z) (n : nat) (s : R) :
  Forall Spec.successful pre ->
  (n + List.length (Spec.accepted pre) < 10)%nat ->
  hd None tail = None ->
  sampling (pre ++ tail) keys n s
  = ((n + List.length (Spec.accepted pre))%nat, s + sum (Spec.accepted pre),
     (tl tail, skipn (List.length pre) keys)).
Proof.
  revert keys n s.
  induction pre as [| r pre IH]; intros keys n s Hok Hn Htail.
  - cbn [app Spec.accepted flat_map List.length skipn].
    rewrite Nat.add_0_r, sum_nil, Rplus_0_r.
    cbn [Spec.accepted flat_map List.length] in Hn.
    apply sampling_failed; [lia | assumption].
  - inversion Hok as [| r' pre' Hr Hpre]; subst.
    destruct r as [f |]; [| now elim Hr].
    assert (Hk : forall m, skipn m (tl keys) = skipn (S m) keys)
      by (intros m; destruct keys; [now destruct m | reflexivity]).
    rewrite accepted_cons in *.
    rewrite <- app_comm_cons, sampling_step.
    + destruct (frame_orientation f) as [o |].
      * cbn [List.length] in *.
        rewrite IH by (assumption || lia).
        rewrite sum_cons, Rplus_assoc, Hk.
        now replace (n + S (List.length (Spec.accepted pre)))%nat
          with (S n + List.length (Spec.accepted pre))%nat by lia.
      * rewrite IH by (assumption || lia). now rewrite Hk.
    + destruct (frame_orientation f); cbn [List.length] in Hn; lia.
Qed.

(** *** The loop of [calibrate_face_orientation] *)

Lemma calibrate_loop_read_failed (fuel : nat) (w : world) :
  hd None (cam w) = None ->
  exists w' : world,
    calibrate_loop (S fuel) w = Some (Ok 0, w') /\ stdout w' = stdout w.
Proof.
  intros Hfail. destruct w as [c k out].
  destruct c as [| r c]; simpl in *.
  - eexists; split; reflexivity.
  - subst r. eexists; split; reflexivity.
Qed.

Lemma calibrate_loop_await (turns : list (frame * Z)) (fuel : nat)
  (c : list read) (k : list Z) (out : list message) :
  Spec.awaiting turns ->
  calibrate_loop (List.length turns + fuel)
    {| cam := map (fun t : frame * Z => Some (fst t)) turns ++ c;
       keys := map snd turns ++ k; stdout := out |}
  = calibrate_loop fuel {| cam := c; keys := k; stdout := out |}.
Proof.
  induction 1 as [| [f key] turns Hkey _ IH]; [reflexivity |].
  simpl in Hkey. simpl.
  destruct (Z.eqb_spec (Z.land key 255) 32); [contradiction |].
  exact IH.
Qed.

Lemma calibrate_loop_confirm (fuel : nat) (f0 f1 : frame) (space : Z)
  (c : list read) (ks : list Z) (out : list message) :
  Z.land space 255 = 32%Z ->
  calibrate_loop (S fuel)
    {| cam := Some f0 :: Some f1 :: c; keys := space :: ks; stdout := out |}
  = let '(n, s, (cam', keys')) := sampling c ks 0 0 in
    if (0 <? n)%nat then
      Some (Ok (s / INR n),
            {| cam := cam'; keys := keys';
               stdout := out ++ [CalibrationCompleteOffset (s / INR n)] |})
    else
      calibrate_loop fuel
        {| cam := cam'; keys := keys'; stdout := out ++ [CalibrationFailed] |}.
Proof.
  intros Hspace. simpl. rewrite Hspace. simpl.
  destruct (sampling c ks 0 0) as [[n s] [cam' keys']].
  reflexivity.
Qed.

(** The loop of the calibration ends on every capture: the fuel is enough. *)
Lemma calibrate_loop_total (fuel : nat) (w : world) :
  (List.length (cam w) < fuel)%nat -> calibrate_loop fuel w <> None.
Proof.
  revert w.
  induction fuel as [| fuel IH]; intros [c k out] Hfuel; [simpl in Hfuel; lia |].
  simpl in Hfuel.
  destruct c as [| [f0 |] c]; try (simpl; discriminate).
  destruct k as [| key k].
  - simpl. apply IH. simpl in *. lia.
  - destruct (Z.eqb_spec (Z.land key 255) 32) as [Hspace | Hother].
    + destruct c as [| [f1 |] c]; try (simpl; rewrite Hspace; simpl; discriminate).
      rewrite calibrate_loop_confirm by assumption.
      pose proof (sampling_cam_length c k 0 0) as Hlen.
      destruct (sampling c k 0 0) as [[n s] [cam' keys']].
      destruct (0 <? n)%nat; [discriminate |].
      apply IH. simpl in *. lia.
    + simpl. destruct (Z.eqb_spec (Z.land key 255) 32); [contradiction |].
      apply IH. simpl in *. lia.
Qed.

Theorem calibrate_returns (w : world) :
  exists r : result R * world, calibrate_face_orientation w = Some r.
Proof.
  unfold calibrate_face_orientation.
  destruct (calibrate_loop _ _) as [r |] eqn:E; [now exists r |].
  apply calibrate_loop_total in E; [contradiction | simpl; lia].
Qed.

(** *** Sampling without a failed read *)

Lemma INR_10 : INR 10 = 10.
Proof. simpl. lra. Qed.

Lemma calibrate_full_run
  (turns : list (frame * Z)) (f0 f1 : frame) (space : Z)
  (pre rest : list read) (ks : list Z) (out : list message) :
  Spec.awaiting turns -> Z.land space 255 = 32%Z ->
  Forall Spec.successful pre ->
  (10 <= List.length (Spec.accepted pre))%nat ->
  exists w' : world,
    calibrate_face_orientation
      (Spec.confirming turns f0 f1 space (pre ++ rest) ks out)
    = Some (Ok (sum (firstn 10 (Spec.accepted pre)) / 10), w').
Proof.
  intros Hwait Hspace Hok Hten.
  pose proof (sampling_readings pre rest ks 0 0 Hok (Nat.le_0_l 10)) as Hfst.
  rewrite Rplus_0_l in Hfst. specialize (Hfst Hten).
  unfold calibrate_face_orientation, Spec.confirming, print.
  cbn [cam keys stdout].
  rewrite length_app. cbn [List.length]. rewrite length_map.
  rewrite <- Nat.add_succ_r.
  rewrite calibrate_loop_await by assumption.
  rewrite calibrate_loop_confirm by assumption.
  destruct (sampling (pre ++ rest) ks 0 0) as [[n t] [cam' keys']].
  simpl in Hfst. injection Hfst as -> ->.
  cbn [Nat.ltb Nat.leb]. rewrite INR_10. eexists; reflexivity.
Qed.

Lemma branch_full_run
  (turns : list (frame * Z)) (f0 f1 : frame) (space : Z)
  (pre rest : list read) (ks : list Z) (out : list message) (s : session) :
  Spec.awaiting turns -> Z.land space 255 = 32%Z ->
  Forall Spec.successful pre ->
  (10 <= List.length (Spec.accepted pre))%nat ->
  exists w' : world,
    calibration_branch
      (Spec.confirming turns f0 f1 space (pre ++ rest) ks out) s
    = Some (Ok {| calibrated := true;
                  center_offset := sum (firstn 10 (Spec.accepted pre)) / 10;
                  last_orientation_value := last_orientation_value s;
                  last_write_time := last_write_time s;
                  orientation_history := orientation_history s;
                  csvfile := csvfile s |}, w').
Proof.
  intros Hwait Hspace Hok Hten.
  destruct (calibrate_full_run turns f0 f1 space pre rest ks
              (out ++ [StartingCalibration]) Hwait Hspace Hok Hten)
    as [w' Hw'].
  unfold calibration_branch.
  change (print StartingCalibration
            (Spec.confirming turns f0 f1 space (pre ++ rest) ks out))
    with (Spec.confirming turns f0 f1 space (pre ++ rest) ks
            (out ++ [StartingCalibration])).
  rewrite Hw'. eexists. reflexivity.
Qed.

(** C5. In a sampling phase without a failed read, only the frames with a
    defined orientation are counted and summed, sampling stops at the tenth
    of them, and the offset returned is the sum of these ten readings divided
    by 10 (so 0.5 when they sum to 5.0); the main loop stores it as the
    calibration offset whatever the offset was before. *)
Theorem calibration_offset
  (turns : list (frame * Z)) (f0 f1 : frame) (space : Z)
  (pre rest : list read) (ks : list Z) (out : list message) (s : session) :
  Spec.awaiting turns -> Z.land space 255 = 32%Z ->
  Forall Spec.successful pre ->
  (10 <= List.length (Spec.accepted pre))%nat ->
  let readings := firstn 10 (Spec.accepted pre) in
  let w := Spec.confirming turns f0 f1 space (pre ++ rest) ks out in
  List.length readings = 10%nat
  /\ fst (sampling (pre ++ rest) ks 0 0) = (10%nat, sum readings)
  /\ (exists w' : world,
        calibrate_face_orientation w = Some (Ok (sum readings / 10), w'))
  /\ (exists (s' : session) (w' : world),
        calibration_branch w s = Some (Ok s', w')
        /\ center_offset s' = sum readings / 10)
  /\ (sum readings = 5 -> sum readings / 10 = 0.5).
Proof.
  intros Hwait Hspace Hok Hten readings w.
  split; [apply firstn_length_le; assumption |].
  split.
  { rewrite (sampling_readings pre rest ks 0 0) by (assumption || lia).
    now rewrite Rplus_0_l. }
  split; [now apply calibrate_full_run |].
  split; [| intros ->; lra].
  destruct (branch_full_run turns f0 f1 space pre rest ks out s
              Hwait Hspace Hok Hten) as [w' Hw'].
  eexists _, w'. split; [exact Hw' | reflexivity].
Qed.

Lemma sample_100 : calculate_face_orientation (Sample.face 100) = Some 1.
Proof.
  rewrite sample_orientation by lia.
  rewrite response_right by lra.
  replace (2 * (100 / 100 - 0.5)) with 1 by lra.
  unfold Rpower. now rewrite ln_1, Rmult_0_r, exp_0.
Qed.

Lemma shows_orientation (n : Z) (rest : list read) :
  Spec.accepted (Sample.shows n :: rest)
  = match calculate_face_orientation (Sample.face n) with
    | Some o => o :: Spec.accepted rest
    | None => Spec.accepted rest
    end.
Proof. apply accepted_cons. Qed.

Lemma sample_accepted :
  Spec.accepted Sample.calibration_reads = [1; 1; 1; 1; 1; 0; 0; 0; 0; 0].
Proof.
  unfold Sample.calibration_reads. cbn [repeat app].
  change (Spec.accepted (Some None :: ?l)) with (Spec.accepted l).
  now rewrite !shows_orientation, sample_100, sample_50.
Qed.

Lemma sample_reads_successful : Forall Spec.successful Sample.calibration_reads.
Proof. repeat constructor; discriminate. Qed.

Lemma calibration_offset_witness :
  exists w' : world,
    calibrate_face_orientation
      (Spec.confirming [] None None 32 (Sample.calibration_reads ++ []) [] [])
    = Some (Ok (sum [1; 1; 1; 1; 1; 0; 0; 0; 0; 0] / 10), w').
Proof.
  assert (Hten : (10 <= List.length (Spec.accepted Sample.calibration_reads))%nat)
    by (rewrite sample_accepted; simpl; lia).
  destruct (calibration_offset [] None None 32 Sample.calibration_reads [] [] []
              (initial_session 0) (Forall_nil _) eq_refl
              sample_reads_successful Hten)
    as (_ & _ & Hrun & _).
  rewrite sample_accepted in Hrun. exact Hrun.
Defined.

Lemma sample_offset : sum [1; 1; 1; 1; 1; 0; 0; 0; 0; 0] / 10 = 0.5.
Proof. unfold sum. simpl. lra. Qed.

(** *** Sampling cut short by a failed read *)

Lemma calibrate_on_failed_read
  (turns : list (frame * Z)) (f0 f1 : frame) (space : Z)
  (pre tail : list read) (ks : list Z) (out : list message) :
  Spec.awaiting turns -> Z.land space 255 = 32%Z ->
  Forall Spec.successful pre ->
  (List.length (Spec.accepted pre) < 10)%nat ->
  hd None tail = None ->
  calibrate_face_orientation
    (Spec.confirming turns f0 f1 space (pre ++ tail) ks out)
  = if (0 <? List.length (Spec.accepted pre))%nat then
      let center_offset :=
        sum (Spec.accepted pre) / INR (List.length (Spec.accepted pre)) in
      Some (Ok center_offset,
            {| cam := tl tail; keys := skipn (List.length pre) ks;
               stdout := (out ++ [CalibrationPrompt])
                         ++ [CalibrationCompleteOffset center_offset] |})
    else
      calibrate_loop (S (S (List.length (pre ++ tail))))
        {| cam := tl tail; keys := skipn (List.length pre) ks;
           stdout := (out ++ [CalibrationPrompt]) ++ [CalibrationFailed] |}.
Proof.
  intros Hwait Hspace Hok Hfew Htail.
  unfold calibrate_face_orientation, Spec.confirming, print.
  cbn [cam keys stdout].
  rewrite length_app. cbn [List.length]. rewrite length_map.
  rewrite <- Nat.add_succ_r.
  rewrite calibrate_loop_await by assumption.
  rewrite calibrate_loop_confirm by assumption.
  rewrite sampling_cut_short by assumption.
  cbn [Nat.add]. rewrite Rplus_0_l. reflexivity.
Qed.

(** C1, as the specification states it, fails: the operator confirms, one
    reading of 0.4 is accepted, the next read fails.  The run returns 0.4,
    computed from that one reading; the main loop stores it in place of the
    default 0.0, and no failure is reported. *)
Lemma partial_estimate_counterexample :
  fst (sampling [Sample.shows 54; None] [] 0 0) = (1%nat, 0 + 0.4)
  /\ exists (s' : session) (w' : world),
       calibration_branch
         (Spec.confirming [] None None 32 [Sample.shows 54; None] [] [])
         (initial_session 0)
       = Some (Ok s', w')
       /\ center_offset s' = 0.4
       /\ center_offset s' <> center_offset (initial_session 0)
       /\ ~ In CalibrationFailed (stdout w').
Proof.
  assert (Hacc : Spec.accepted [Sample.shows 54] = [0.4])
    by now rewrite shows_orientation, sample_54.
  split.
  - unfold Sample.shows. rewrite sampling_step by lia.
    change (frame_orientation (Some (Sample.face_shape 54)))
      with (calculate_face_orientation (Sample.face 54)).
    rewrite sample_54. reflexivity.
  - unfold calibration_branch.
    change (print StartingCalibration
              (Spec.confirming [] None None 32 [Sample.shows 54; None] [] []))
      with (Spec.confirming [] None None 32 ([Sample.shows 54] ++ [None]) []
              [StartingCalibration]).
    rewrite calibrate_on_failed_read;
      [| constructor | reflexivity | repeat constructor; discriminate
       | rewrite Hacc; simpl; lia | reflexivity].
    rewrite Hacc. cbn [List.length Nat.ltb Nat.leb].
    eexists _, _. split; [reflexivity |].
    cbn [center_offset initial_session stdout print].
    assert (Hv : sum [0.4] / INR 1 = 0.4) by (unfold sum; simpl; lra).
    split; [exact Hv |]. split; [rewrite Hv; lra |].
    simpl. intros [H | [H | [H | [H | [H | []]]]]]; discriminate.
Qed.

(** C1, amended.  The operator has confirmed, and the frame source fails
    for good before ten readings were accepted.  With no reading accepted,
    the controller reports the failure and the run returns the default
    offset 0.0.  With [k >= 1] readings accepted, the run returns their mean,
    the sum divided by [k], and reports a completed calibration. *)
Theorem calibration_cut_short
  (turns : list (frame * Z)) (f0 f1 : frame) (space : Z)
  (pre tail : list read) (ks : list Z) (out : list message) :
  Spec.awaiting turns -> Z.land space 255 = 32%Z ->
  Forall Spec.successful pre ->
  (List.length (Spec.accepted pre) < 10)%nat ->
  Forall (fun r : read => r = None) tail ->
  let w := Spec.confirming turns f0 f1 space (pre ++ tail) ks out in
  let k := List.length (Spec.accepted pre) in
  (k = 0%nat ->
   exists w' : world,
     calibrate_face_orientation w = Some (Ok 0, w')
     /\ stdout w' = out ++ [CalibrationPrompt; CalibrationFailed])
  /\ ((1 <= k)%nat ->
      exists w' : world,
        calibrate_face_orientation w
        = Some (Ok (sum (Spec.accepted pre) / INR k), w')
        /\ stdout w'
           = out ++ [CalibrationPrompt;
                     CalibrationCompleteOffset (sum (Spec.accepted pre) / INR k)]).
Proof.
  intros Hwait Hspace Hok Hfew Hdead w k.
  assert (Htail : hd None tail = None)
    by (destruct Hdead; [reflexivity | assumption]).
  unfold w. rewrite calibrate_on_failed_read by assumption. fold k.
  split; intros Hk.
  - rewrite Hk. cbn [Nat.ltb Nat.leb].
    match goal with |- context [calibrate_loop (S ?fuel) ?v] =>
      destruct (calibrate_loop_read_failed fuel v) as (w' & Hrun & Hout)
    end.
    + cbn [cam]. destruct Hdead as [| r tail Hr Hdead]; [reflexivity |].
      destruct Hdead; [reflexivity | assumption].
    + exists w'. split; [exact Hrun |].
      rewrite Hout. cbn [stdout]. now rewrite <- app_assoc.
  - destruct k as [| k']; [lia |]. cbn [Nat.ltb Nat.leb]. cbv zeta.
    eexists. split; [reflexivity |].
    cbn [stdout]. now rewrite <- app_assoc.
Qed.

Lemma calibration_cut_short_witness :
  exists w' : world,
    calibrate_face_orientation
      (Spec.confirming [] None None 32 ([Sample.shows 54] ++ [None]) [] [])
    = Some (Ok (sum (Spec.accepted [Sample.shows 54])
                / INR (List.length (Spec.accepted [Sample.shows 54]))), w')
    /\ stdout w'
       = [] ++ [CalibrationPrompt;
                CalibrationCompleteOffset
                  (sum (Spec.accepted [Sample.shows 54])
                   / INR (List.length (Spec.accepted [Sample.shows 54])))].
Proof.
  assert (Hacc : Spec.accepted [Sample.shows 54] = [0.4])
    by now rewrite shows_orientation, sample_54.
  refine (proj2 (calibration_cut_short [] None None 32 [Sample.shows 54] [None]
                   [] [] (Forall_nil _) eq_refl _ _ _) _).
  - repeat constructor; discriminate.
  - rewrite Hacc. simpl. lia.
  - repeat constructor.
  - rewrite Hacc. simpl. lia.
Defined.

(** ** The sample gate *)

Lemma must_write_due (final now : R) (s : session) :
  must_write final now s = true <-> Spec.due final now s.
Proof.
  unfold must_write, Spec.due.
  destruct (last_orientation_value s) as [last |].
  - destruct (Rgt_dec (Rabs (final - last)) 0.03) as [Hbig | Hsmall].
    + split; [| reflexivity]. intros _. right; left. now exists last.
    + destruct (Rge_dec (now - last_write_time s) 0.5) as [Hold | Hnew].
      * split; [| reflexivity]. intros _. now right; right.
      * split; [discriminate |].
        intros [H | [(previous & [= <-] & H) | H]];
          [discriminate | contradiction | contradiction].
  - split; [| reflexivity]. intros _. now left.
Qed.

(** C7. A record is written if and only if no value was logged before, or
    the value differs from the last logged one by more than 0.03, or at
    least 0.5 seconds have passed since the last write.  When it is written,
    the last logged value becomes the written orientation and the last-write
    time becomes the time of the write; when it is not, both stay as they
    were.  The main loop applies this to every frame with a defined
    orientation, with the clamped output of the smoother. *)
Theorem gate_contract (final : R) (now : clock) (s : session) :
  (Spec.due final (time_time now) s ->
   csvfile (write_if_due final now s)
   = csvfile s ++ [{| timestamp := datetime_now now; orientation := final |}]
   /\ last_orientation_value (write_if_due final now s) = Some final
   /\ last_write_time (write_if_due final now s) = time_time now)
  /\ (~ Spec.due final (time_time now) s -> write_if_due final now s = s)
  /\ (csvfile (write_if_due final now s) <> csvfile s
      <-> Spec.due final (time_time now) s)
  /\ (forall raw : R,
        exists (smoothed : R) (window : list R),
          apply_moving_average (raw - center_offset s) (orientation_history s)
            default_window_size
          = Ok (smoothed, window)
          /\ track raw now s
             = Ok (write_if_due (clamp smoothed) now
                     {| calibrated := calibrated s;
                        center_offset := center_offset s;
                        last_orientation_value := last_orientation_value s;
                        last_write_time := last_write_time s;
                        orientation_history := window;
                        csvfile := csvfile s |})).
Proof.
  pose proof (must_write_due final (time_time now) s) as Hdue.
  unfold write_if_due. cbv zeta.
  destruct (must_write final (time_time now) s).
  - assert (Spec.due final (time_time now) s) by now apply Hdue.
    split; [intros _; cbn; auto |].
    split; [intros Hno; contradiction |].
    split.
    + split; [auto |]. intros _. cbn. intros Heq.
      apply (f_equal (@List.length csv_row)) in Heq.
      rewrite length_app in Heq. simpl in Heq. lia.
    + intros raw. unfold track.
      rewrite smoother_step
        by (apply window_after_nonempty; unfold default_window_size; lia).
      eexists _, _. split; reflexivity.
  - assert (~ Spec.due final (time_time now) s)
      by (intros Hd; apply Hdue in Hd; discriminate).
    split; [intros Hd; contradiction |].
    split; [reflexivity |].
    split.
    + split; [intros Hne; now elim Hne | intros Hd; contradiction].
    + intros raw. unfold track.
      rewrite smoother_step
        by (apply window_after_nonempty; unfold default_window_size; lia).
      eexists _, _. split; reflexivity.
Qed.

Lemma gate_contract_witness :
  csvfile (write_if_due 0.14 Sample.early (initial_session 0))
  = csvfile (initial_session 0)
    ++ [{| timestamp := datetime_now Sample.early; orientation := 0.14 |}]
  /\ last_orientation_value (write_if_due 0.14 Sample.early (initial_session 0))
     = Some 0.14
  /\ last_write_time (write_if_due 0.14 Sample.early (initial_session 0))
     = time_time Sample.early.
Proof.
  apply (proj1 (gate_contract 0.14 Sample.early (initial_session 0))).
  left. reflexivity.
Defined.

(** ** The smoothing window across a calibration *)

Lemma lastn_all {A : Type} (n : nat) (l : list A) :
  (List.length l <= n)%nat -> Spec.lastn n l = l.
Proof.
  intros Hlen. unfold Spec.lastn.
  now replace (List.length l - n)%nat with 0%nat by lia.
Qed.

Lemma lastn_length {A : Type} (n : nat) (l : list A) :
  List.length (Spec.lastn n l) = Nat.min n (List.length l).
Proof. unfold Spec.lastn. rewrite length_skipn. lia. Qed.

Lemma lastn_app_lastn {A : Type} (n : nat) (a b : list A) :
  Spec.lastn n (Spec.lastn n a ++ b) = Spec.lastn n (a ++ b).
Proof.
  destruct (Nat.le_gt_cases (List.length a) n) as [Hshort | Hlong].
  - now rewrite (lastn_all n a).
  - unfold Spec.lastn.
    rewrite !length_app, length_skipn.
    replace (skipn (List.length a - n) a ++ b)
      with (skipn (List.length a - n) (a ++ b)).
    + rewrite skipn_skipn. f_equal. lia.
    + rewrite skipn_app.
      replace (List.length a - n - List.length a)%nat with 0%nat by lia.
      reflexivity.
Qed.

(** Once the new values alone fill the window, nothing older is left. *)
Lemma lastn_app_full {A : Type} (n : nat) (a b : list A) :
  (n <= List.length b)%nat -> Spec.lastn n (a ++ b) = Spec.lastn n b.
Proof.
  intros Hfull. unfold Spec.lastn.
  rewrite length_app, skipn_app.
  replace (List.length a + List.length b - n - List.length a)%nat
    with (List.length b - n)%nat by lia.
  rewrite skipn_all2 by lia. reflexivity.
Qed.

Lemma window_after_lastn (v : R) (w : list R) (n : nat) :
  (1 <= n)%nat -> (List.length w <= n)%nat ->
  Spec.window_after v w (Z.of_nat n) = Spec.lastn n (w ++ [v]).
Proof.
  intros Hn Hw.
  destruct (window_after_cases v w (Z.of_nat n)) as [Hroom Hfull].
  destruct (Nat.eq_dec (List.length w) n) as [Heq | Hne].
  - rewrite Hfull; [| lia | destruct w; [simpl in Heq; lia | discriminate]].
    unfold Spec.lastn. rewrite length_app. simpl.
    replace (List.length w + 1 - n)%nat with 1%nat by lia.
    destruct w; [simpl in Heq; lia | reflexivity].
  - rewrite Hroom by lia.
    rewrite lastn_all; [reflexivity |]. rewrite length_app. simpl. lia.
Qed.

Lemma track_window (raw : R) (now : clock) (s : session) :
  (List.length (orientation_history s) <= 5)%nat ->
  exists s' : session,
    track raw now s = Ok s'
    /\ center_offset s' = center_offset s
    /\ orientation_history s'
       = Spec.lastn 5 (orientation_history s ++ [raw - center_offset s]).
Proof.
  intros Hlen. unfold track.
  rewrite smoother_step
    by (apply window_after_nonempty; unfold default_window_size; lia).
  eexists. split; [reflexivity |].
  unfold write_if_due. cbv zeta.
  destruct (must_write _ _ _); cbn [center_offset orientation_history];
    (split; [reflexivity |]);
    apply (window_after_lastn _ _ 5); lia.
Qed.

Lemma track_each_window (turns : list (R * clock)) (s : session) :
  (List.length (orientation_history s) <= 5)%nat ->
  exists s' : session,
    Sample.track_each turns s = Ok s'
    /\ center_offset s' = center_offset s
    /\ orientation_history s'
       = Spec.lastn 5 (orientation_history s
                       ++ map (fun t : R * clock => fst t - center_offset s)
                            turns).
Proof.
  revert s.
  induction turns as [| [raw now] turns IH]; intros s Hlen.
  - exists s. repeat split. cbn [map]. rewrite app_nil_r.
    now rewrite lastn_all.
  - destruct (track_window raw now s Hlen) as (s1 & Hrun & Hoff & Hwin).
    destruct (IH s1) as (s2 & Hrun2 & Hoff2 & Hwin2).
    { rewrite Hwin, lastn_length. lia. }
    exists s2. cbn [Sample.track_each]. rewrite Hrun.
    split; [exact Hrun2 |]. split; [congruence |].
    rewrite Hwin2, Hwin, Hoff, lastn_app_lastn, <- app_assoc.
    reflexivity.
Qed.

(** A value left in the window changes what is logged for the next frame:
    with 1 in the window, a calibrated orientation 0 is smoothed to 0.5; with
    an empty window, to 0. *)
Lemma stale_value_example :
  exists a b : session,
    track 0 Sample.early (Sample.session_with_history [1]) = Ok a
    /\ track 0 Sample.early (Sample.session_with_history []) = Ok b
    /\ last_orientation_value a = Some 0.5
    /\ last_orientation_value b = Some 0.
Proof.
  unfold track, Sample.session_with_history.
  cbn [orientation_history center_offset].
  rewrite !smoother_step
    by (apply window_after_nonempty; unfold default_window_size; lia).
  eexists _, _. split; [reflexivity |]. split; [reflexivity |].
  unfold write_if_due, must_write. cbv zeta.
  cbn [last_orientation_value].
  unfold Spec.mean, Spec.window_after, default_window_size. simpl.
  split; f_equal.
  - rewrite clamp_id; lra.
  - rewrite clamp_id; lra.
Qed.

(** The turn of the main loop on which the key [c] is found hands over to
    the calibration. *)
Lemma main_turn_calibrates (now : clock) (f : frame) (c : list read) (key : Z)
  (ks : list Z) (out : list message) (s : session) :
  Z.land key 255 = 99%Z ->
  main_turn now {| cam := Some f :: c; keys := key :: ks; stdout := out |} s
  = match calibration_branch {| cam := c; keys := ks; stdout := out |} s with
    | None => None
    | Some (Raise e, w) => Some (Raise e, w)
    | Some (Ok s', w) => Some (Ok (Continue, s'), w)
    end.
Proof.
  intros Hkey. unfold main_turn. simpl. rewrite Hkey. reflexivity.
Qed.

Lemma calibration_branch_frame (w w' : world) (s s' : session) :
  calibration_branch w s = Some (Ok s', w') ->
  calibrated s' = true
  /\ last_orientation_value s' = last_orientation_value s
  /\ last_write_time s' = last_write_time s
  /\ orientation_history s' = orientation_history s
  /\ csvfile s' = csvfile s.
Proof.
  unfold calibration_branch.
  destruct (calibrate_face_orientation _) as [[[offset | e] w1] |];
    [| discriminate | discriminate].
  intros [= <- _]. repeat split.
Qed.

Lemma pressing_c_turn (now : clock) (s : session) :
  exists w' : world,
    main_turn now Sample.pressing_c s
    = Some (Ok (Continue,
                {| calibrated := true;
                   center_offset := sum [1; 1; 1; 1; 1; 0; 0; 0; 0; 0] / 10;
                   last_orientation_value := last_orientation_value s;
                   last_write_time := last_write_time s;
                   orientation_history := orientation_history s;
                   csvfile := csvfile s |}), w').
Proof.
  assert (Hten : (10 <= List.length (Spec.accepted Sample.calibration_reads))%nat)
    by (rewrite sample_accepted; simpl; lia).
  destruct (branch_full_run [] None None 32 Sample.calibration_reads [] [] [] s
              (Forall_nil _) eq_refl sample_reads_successful Hten)
    as [w' Hw'].
  rewrite sample_accepted in Hw'. cbn [firstn] in Hw'.
  exists w'. unfold Sample.pressing_c.
  rewrite main_turn_calibrates by reflexivity.
  change {| cam := Some None :: Some None :: Sample.calibration_reads;
            keys := [32%Z]; stdout := [] |}
    with (Spec.confirming [] None None 32 (Sample.calibration_reads ++ []) [] []).
  now rewrite Hw'.
Qed.

(** A turn of the main loop always comes to an end. *)
Lemma main_turn_returns (now : clock) (w : world) (s : session) :
  exists r : result (control * session) * world, main_turn now w s = Some r.
Proof.
  unfold main_turn.
  destruct (cap_read w) as [[f |] w1]; [| eexists; reflexivity].
  destruct (waitKey w1) as [key w2].
  destruct (Z.land key 255 =? 99)%Z.
  - unfold calibration_branch.
    destruct (calibrate_returns (print StartingCalibration w2))
      as [[[offset | e] w3] Hrun];
      rewrite Hrun; eexists; reflexivity.
  - destruct (Z.land key 255 =? 113)%Z; [eexists; reflexivity |].
    destruct (frame_orientation f) as [raw |]; [| eexists; reflexivity].
    destruct (track raw now s); eexists; reflexivity.
Qed.

(** The smoothing window of the main loop never holds more than five
    values: it starts empty, and no turn makes it longer than that. *)
Lemma main_turn_window_bound (now : clock) (w w' : world) (s s' : session)
  (ctl : control) :
  main_turn now w s = Some (Ok (ctl, s'), w') ->
  (List.length (orientation_history s) <= 5)%nat ->
  (List.length (orientation_history s') <= 5)%nat.
Proof.
  unfold main_turn.
  destruct (cap_read w) as [[f |] w1]; [| intros [= _ <- _]; auto].
  destruct (waitKey w1) as [key w2].
  destruct (Z.land key 255 =? 99)%Z.
  - destruct (calibration_branch w2 s) as [[[s1 | e] w3] |] eqn:Hbranch;
      try discriminate.
    intros [= _ <- _] Hlen.
    apply calibration_branch_frame in Hbranch.
    destruct Hbranch as (_ & _ & _ & -> & _). exact Hlen.
  - destruct (Z.land key 255 =? 113)%Z; [intros [= _ <- _]; auto |].
    destruct (frame_orientation f) as [raw |]; [| intros [= _ <- _]; auto].
    intros Hturn Hlen.
    destruct (track_window raw now s Hlen) as (s1 & Hrun & _ & Hwin).
    rewrite Hrun in Hturn. injection Hturn as _ <- _.
    rewrite Hwin, lastn_length. lia.
Qed.

(** C9, as the specification states it, fails: a completed calibration also
    sets the flag [calibrated] of the main loop (line 219).  Here the
    calibration returns the offset 0.5, and the flag goes from false to
    true. *)
Lemma calibration_flag_counterexample :
  exists (s' : session) (w' : world),
    main_turn Sample.early Sample.pressing_c (Sample.session_with_history [1])
    = Some (Ok (Continue, s'), w')
    /\ center_offset s' = 0.5
    /\ calibrated (Sample.session_with_history [1]) = false
    /\ calibrated s' = true
    /\ calibrated s' <> calibrated (Sample.session_with_history [1]).
Proof.
  destruct (pressing_c_turn Sample.early (Sample.session_with_history [1]))
    as [w' Hw'].
  eexists _, w'. split; [exact Hw' |].
  cbn [center_offset calibrated Sample.session_with_history].
  split; [apply sample_offset |]. repeat split. discriminate.
Qed.

(** C9, amended.  A completed calibration changes the calibration offset
    and sets the flag [calibrated], and nothing else of the session: the
    smoothing window, the last logged value and time and the log are as
    before.  The values that were in the window stay there and take part in
    the smoothed output of the frames that follow, until five frames
    (the window size) have been processed: from then on the window holds
    values from after the calibration only. *)
Theorem calibration_keeps_window
  (now : clock) (f : frame) (c : list read) (key : Z) (ks : list Z)
  (out : list message) (s s' : session) (w' : world) :
  Z.land key 255 = 99%Z ->
  main_turn now {| cam := Some f :: c; keys := key :: ks; stdout := out |} s
  = Some (Ok (Continue, s'), w') ->
  (List.length (orientation_history s) <= 5)%nat ->
  (calibrated s' = true
   /\ last_orientation_value s' = last_orientation_value s
   /\ last_write_time s' = last_write_time s
   /\ orientation_history s' = orientation_history s
   /\ csvfile s' = csvfile s)
  /\ (forall turns : list (R * clock),
        let fresh := map (fun t : R * clock => fst t - center_offset s') turns in
        exists s_end : session,
          Sample.track_each turns s' = Ok s_end
          /\ orientation_history s_end
             = Spec.lastn 5 (orientation_history s ++ fresh)
          /\ ((5 <= List.length turns)%nat ->
              orientation_history s_end = Spec.lastn 5 fresh))
  /\ (exists a b : session,
        track 0 Sample.early (Sample.session_with_history [1]) = Ok a
        /\ track 0 Sample.early (Sample.session_with_history []) = Ok b
        /\ last_orientation_value a = Some 0.5
        /\ last_orientation_value b = Some 0).
Proof.
  intros Hkey Hturn Hlen.
  rewrite main_turn_calibrates in Hturn by assumption.
  destruct (calibration_branch _ s) as [[[s1 | e] w1] |] eqn:Hbranch;
    [| discriminate | discriminate].
  injection Hturn as Hs Hw. subst s' w'.
  pose proof (calibration_branch_frame _ _ _ _ Hbranch)
    as (Hflag & Hval & Htime & Hwin & Hcsv).
  split; [repeat split; assumption |].
  split; [| exact stale_value_example].
  intros turns fresh.
  destruct (track_each_window turns s1) as (s_end & Hrun & _ & Hend).
  { rewrite Hwin. exact Hlen. }
  exists s_end. split; [exact Hrun |].
  rewrite Hwin in Hend. split; [exact Hend |].
  intros Hfull. rewrite Hend. apply lastn_app_full.
  unfold fresh. rewrite length_map. exact Hfull.
Qed.

Lemma calibration_keeps_window_witness :
  exists s' : session,
    orientation_history s' = orientation_history (Sample.session_with_history [1])
    /\ calibrated s' = true.
Proof.
  destruct (pressing_c_turn Sample.early (Sample.session_with_history [1]))
    as [w' Hw'].
  eexists.
  refine ((fun H => conj (proj1 (proj2 (proj2 (proj2 (proj1 H)))))
                         (proj1 (proj1 H)))
            (calibration_keeps_window Sample.early None _ 99 _ _ _ _ w'
               eq_refl Hw' _)).
  simpl. lia.
Defined.

(** ** The serial demultiplexer *)

Section DemultiplexerFacts.

Variable float : Type.
Variable py_int : string -> option Z.
Variable py_float : string -> option float.

Local Open Scope string_scope.
Local Open Scope list_scope.

Local Abbreviation state := (Leg.state float).
Local Abbreviation try_body := (Leg.try_body float py_int py_float).
Local Abbreviation process_line := (Leg.process_line float py_int py_float).
Local Abbreviation run := (Leg.run float py_int py_float).
Local Abbreviation record_of := (Leg.record_of float py_int py_float).
Local Abbreviation logs_after := (Leg.logs_after float py_int py_float).

Lemma print_statistics_logs (now : R) (st : state) :
  Leg.ecg_file (Leg.print_statistics float now st) = Leg.ecg_file st
  /\ Leg.imu_file (Leg.print_statistics float now st) = Leg.imu_file st.
Proof.
  unfold Leg.print_statistics.
  destruct (Rge_dec _ _); split; reflexivity.
Qed.

Lemma split_comma_nonempty (line : string) : Leg.split_comma line <> [].
Proof.
  destruct line as [| c rest]; simpl; [discriminate |].
  destruct (Ascii.eqb c ","); [discriminate |].
  destruct (Leg.split_comma rest); discriminate.
Qed.

Ltac by_fields line :=
  let E := fresh "E" in
  destruct (Leg.split_comma line)
    as [| tag [| v1 [| v2 [| v3 [| v4 [| v5 [| v6 [| v7 more]]]]]]]] eqn:E;
  [exfalso; exact (split_comma_nonempty line E) | ..];
  cbn;
  destruct (tag =? "ECG") eqn:Hecg; destruct (tag =? "IMU") eqn:Himu; cbn;
  unfold Leg.to_int, Leg.to_float;
  repeat match goal with
         | |- context [py_int ?v] => destruct (py_int v) eqn:?; cbn
         | |- context [py_float ?v] => destruct (py_float v) eqn:?; cbn
         end.

(** The body of the [try] raises [ValueError] or nothing. *)
Lemma try_body_raises (timestamp : string) (now : R) (line : string)
  (st : state) (e : exn) :
  try_body timestamp now line st = Raise e -> e = ValueError.
Proof.
  unfold Leg.try_body. by_fields line; congruence.
Qed.

Lemma process_line_ok (timestamp : string) (now : R) (line : string) (st : state) :
  exists st' : state,
    process_line timestamp now line st = Ok st'
    /\ (Leg.ecg_file st', Leg.imu_file st') = logs_after timestamp line st.
Proof.
  unfold Leg.process_line, Leg.try_body, Leg.logs_after, Leg.record_of.
  by_fields line;
    (eexists; split; [reflexivity |]);
    try reflexivity;
    match goal with
    | |- context [Leg.print_statistics float now ?v] =>
        destruct (print_statistics_logs now v) as [Hecg' Himu'];
        rewrite Hecg', Himu'; reflexivity
    end.
Qed.

Lemma run_ok (arrivals : list (string * R * string)) (st : state) :
  exists st_end : state, run arrivals st = Ok st_end.
Proof.
  revert st.
  induction arrivals as [| [[timestamp now] line] rest IH]; intros st.
  - now exists st.
  - destruct (process_line_ok timestamp now line st) as (st' & Hst' & _).
    cbn [Leg.run]. rewrite Hst'. cbn [Leg.bind]. apply IH.
Qed.

Lemma record_of_ecg (line : string) (value : Z) :
  record_of line = Some (Leg.ECGRecord value)
  <-> exists field : string,
        Leg.split_comma line = ["ECG"; field] /\ py_int field = Some value.
Proof.
  unfold Leg.record_of. split.
  - destruct (Leg.split_comma line)
      as [| tag [| v1 [| v2 [| v3 [| v4 [| v5 [| v6 [| v7 more]]]]]]]];
      try discriminate.
    + destruct (String.eqb_spec tag "ECG") as [-> | _]; [| discriminate].
      destruct (py_int v1) as [v |] eqn:Hint; [| discriminate].
      intros [= <-]. now exists v1.
    + destruct (tag =? "IMU"); [| discriminate].
      destruct (py_float v1), (py_float v2), (py_float v3),
               (py_float v4), (py_float v5), (py_float v6); discriminate.
  - intros (field & -> & Hint). cbn. now rewrite Hint.
Qed.

Lemma record_of_imu (line : string) (values : Leg.imu_values float) :
  record_of line = Some (Leg.IMURecord values)
  <-> exists f1 f2 f3 f4 f5 f6 : string,
        Leg.split_comma line = ["IMU"; f1; f2; f3; f4; f5; f6]
        /\ py_float f1 = Some (Leg.accel_x float values)
        /\ py_float f2 = Some (Leg.accel_y float values)
        /\ py_float f3 = Some (Leg.accel_z float values)
        /\ py_float f4 = Some (Leg.gyro_x float values)
        /\ py_float f5 = Some (Leg.gyro_y float values)
        /\ py_float f6 = Some (Leg.gyro_z float values).
Proof.
  unfold Leg.record_of. split.
  - destruct (Leg.split_comma line)
      as [| tag [| v1 [| v2 [| v3 [| v4 [| v5 [| v6 [| v7 more]]]]]]]];
      try discriminate.
    + destruct (tag =? "ECG"); [| discriminate].
      destruct (py_int v1); discriminate.
    + destruct (String.eqb_spec tag "IMU") as [-> | _]; [| discriminate].
      destruct (py_float v1) as [a |] eqn:E1; [| discriminate].
      destruct (py_float v2) as [b |] eqn:E2; [| discriminate].
      destruct (py_float v3) as [c |] eqn:E3; [| discriminate].
      destruct (py_float v4) as [d |] eqn:E4; [| discriminate].
      destruct (py_float v5) as [e |] eqn:E5; [| discriminate].
      destruct (py_float v6) as [f |] eqn:E6; [| discriminate].
      intros [= <-]. exists v1, v2, v3, v4, v5, v6. cbn. auto 10.
  - intros (f1 & f2 & f3 & f4 & f5 & f6 & -> & H1 & H2 & H3 & H4 & H5 & H6).
    cbn. rewrite H1, H2, H3, H4, H5, H6. now destruct values.
Qed.

(** C8. A line yields an ECG record with the parsed integer exactly when
    its comma-separated fields are the tag "ECG" and one more field that
    parses as an integer, and an IMU record with the six parsed floats in
    order exactly when they are the tag "IMU" and six more fields that all
    parse as floats.  Any other line adds nothing to either log.  In every
    case the line is processed without an exception escaping, and the loop
    goes on with the next line: a run over any sequence of lines ends
    normally.  The lines "FOO,1,2" and "ECG,abc" yield no record. *)
Theorem demultiplexer_contract
  (timestamp : string) (now : R) (line : string) (st : state) :
  (exists st' : state,
      process_line timestamp now line st = Ok st'
      /\ (Leg.ecg_file st', Leg.imu_file st') = logs_after timestamp line st
      /\ forall rest : list (string * R * string),
           run ((timestamp, now, line) :: rest) st = run rest st')
  /\ (forall value : Z,
        record_of line = Some (Leg.ECGRecord value)
        <-> exists field : string,
              Leg.split_comma line = ["ECG"; field] /\ py_int field = Some value)
  /\ (forall values : Leg.imu_values float,
        record_of line = Some (Leg.IMURecord values)
        <-> exists f1 f2 f3 f4 f5 f6 : string,
              Leg.split_comma line = ["IMU"; f1; f2; f3; f4; f5; f6]
              /\ py_float f1 = Some (Leg.accel_x float values)
              /\ py_float f2 = Some (Leg.accel_y float values)
              /\ py_float f3 = Some (Leg.accel_z float values)
              /\ py_float f4 = Some (Leg.gyro_x float values)
              /\ py_float f5 = Some (Leg.gyro_y float values)
              /\ py_float f6 = Some (Leg.gyro_z float values))
  /\ (forall arrivals : list (string * R * string),
        exists st_end : state, run arrivals st = Ok st_end)
  /\ record_of "FOO,1,2" = None
  /\ (py_int "abc" = None -> record_of "ECG,abc" = None).
Proof.
  split.
  { destruct (process_line_ok timestamp now line st) as (st' & Hst' & Hlogs).
    exists st'. split; [exact Hst' |]. split; [exact Hlogs |].
    intros rest. cbn [Leg.run]. now rewrite Hst'. }
  split; [intros value; apply record_of_ecg |].
  split; [intros values; apply record_of_imu |].
  split; [intros arrivals; apply run_ok |].
  split; [reflexivity |].
  intros Habc. unfold Leg.record_of. cbn. now rewrite Habc.
Qed.

End DemultiplexerFacts.

Lemma demultiplexer_contract_witness :
  Leg.record_of Q LegSample.decimal_int LegSample.decimal_float "ECG,abc" = None
  /\ Leg.record_of Q LegSample.decimal_int LegSample.decimal_float "ECG,512"
     = Some (Leg.ECGRecord 512)
  /\ Leg.record_of Q LegSample.decimal_int LegSample.decimal_float
       "IMU,0.1,0.2,0.3,0.01,0.02,0.03"
     = Some (Leg.IMURecord
               {| Leg.accel_x := 1 # 10; Leg.accel_y := 2 # 10;
                  Leg.accel_z := 3 # 10; Leg.gyro_x := 1 # 100;
                  Leg.gyro_y := 2 # 100; Leg.gyro_z := 3 # 100 |}).
Proof.
  split; [| split; reflexivity].
  apply (demultiplexer_contract Q LegSample.decimal_int LegSample.decimal_float
           "2025-01-01 00:00:00.000" 0 "ECG,abc" LegSample.fresh).
  reflexivity.
Defined.

(** * Further properties of the code *)

(** ** The estimator: translation, direction, end points *)

Lemma clamp_odd (v : R) : clamp (- v) = - clamp v.
Proof. case_clamp. Qed.

Lemma clamp_sign (v : R) :
  (0 < clamp v <-> 0 < v) /\ (clamp v = 0 <-> v = 0) /\ (clamp v < 0 <-> v < 0).
Proof. repeat split; case_clamp. Qed.

Lemma sign_odd (v : R) : sign (- v) = - sign v.
Proof.
  unfold sign.
  destruct (Rlt_dec (- v) 0), (Rlt_dec v 0), (Rgt_dec (- v) 0), (Rgt_dec v 0);
    lra.
Qed.

(** The response is odd about the middle position. *)
Lemma response_odd (r : R) : response (1 - r) = - response r.
Proof.
  unfold response.
  replace (1 - r - 0.5) with (- (r - 0.5)) by lra.
  rewrite Rabs_Ropp, sign_odd.
  destruct (Rlt_dec (Rabs (r - 0.5)) 0.05); rewrite <- clamp_odd; f_equal; lra.
Qed.

Lemma norm_diff_nonneg (p q : point) : 0 <= norm_diff p q.
Proof. rewrite norm_diff_dist. apply dist_nonneg. Qed.

Lemma guards_passed (l : landmarks) (o : R) :
  calculate_face_orientation l = Some o ->
  (31 <= List.length l)%nat /\ 10 <= face_width l
  /\ o = response (relative_pos l).
Proof.
  unfold calculate_face_orientation.
  destruct (Nat.ltb_spec (List.length l) 31); [discriminate |].
  destruct (Rlt_dec (face_width l) 10); [discriminate |].
  intros [= <-]. repeat split; [assumption | lra].
Qed.

Lemma guards_pass (l : landmarks) :
  (31 <= List.length l)%nat -> 10 <= face_width l ->
  calculate_face_orientation l = Some (response (relative_pos l)).
Proof.
  intros Hlen Hw. unfold calculate_face_orientation.
  destruct (Nat.ltb_spec (List.length l) 31); [lia |].
  destruct (Rlt_dec (face_width l) 10); [lra | reflexivity].
Qed.

Lemma denominator_of_face (l : landmarks) :
  10 <= face_width l -> 0 < distance_to_left l + distance_to_right l.
Proof. intros Hw. pose proof (face_width_le_sum l). lra. Qed.

Lemma norm_diff_translate (a b : Z) (p q : point) :
  norm_diff (fst p + a, snd p + b)%Z (fst q + a, snd q + b)%Z = norm_diff p q.
Proof.
  unfold norm_diff. cbn [fst snd].
  replace (fst p + a - (fst q + a))%Z with (fst p - fst q)%Z by lia.
  replace (snd p + b - (snd q + b))%Z with (snd p - snd q)%Z by lia.
  reflexivity.
Qed.

Lemma row_translate (a b : Z) (l : landmarks) (i : nat) :
  (i < List.length l)%nat ->
  row (Geometry.translate a b l) i = (fst (row l i) + a, snd (row l i) + b)%Z.
Proof.
  intros Hi. unfold row, Geometry.translate.
  rewrite (nth_indep _ (0%Z, 0%Z) (fst (0%Z, 0%Z) + a, snd (0%Z, 0%Z) + b)%Z)
    by (rewrite length_map; exact Hi).
  apply (map_nth (fun p : point => (fst p + a, snd p + b)%Z)).
Qed.

(** X2. Moving the whole landmark set by a vector of pixels does not change
    the orientation: the estimator sees differences of positions only. *)
Theorem translation_invariant (a b : Z) (l : landmarks) :
  calculate_face_orientation (Geometry.translate a b l)
  = calculate_face_orientation l.
Proof.
  unfold calculate_face_orientation, Geometry.translate at 1.
  rewrite length_map.
  destruct (Nat.ltb_spec (List.length l) 31) as [Hshort | Hlong];
    [reflexivity |].
  assert (Hw : face_width (Geometry.translate a b l) = face_width l).
  { unfold face_width. rewrite !row_translate by lia.
    apply norm_diff_translate. }
  assert (Hr : relative_pos (Geometry.translate a b l) = relative_pos l).
  { unfold relative_pos, distance_to_left, distance_to_right.
    rewrite !row_translate by lia. now rewrite !norm_diff_translate. }
  now rewrite Hw, Hr.
Qed.

Lemma response_sign (r : R) :
  (0 < response r <-> 0.5 < r)
  /\ (response r = 0 <-> r = 0.5)
  /\ (response r < 0 <-> r < 0.5).
Proof.
  unfold response.
  match goal with |- context [clamp ?v] => set (raw := v) end.
  assert (Hraw : (0 < raw <-> 0.5 < r) /\ (raw = 0 <-> r = 0.5)
                 /\ (raw < 0 <-> r < 0.5)).
  { unfold raw.
    destruct (Rlt_dec (Rabs (r - 0.5)) 0.05) as [Hin | Hout].
    - repeat split; lra.
    - apply Rnot_lt_le in Hout.
      assert (Hp : 0 < pow (Rabs (r - 0.5) * 2) 0.8).
      { rewrite pow_pos by lra. apply exp_pos. }
      unfold sign.
      destruct (Rlt_dec (r - 0.5) 0) as [Hneg | Hnn].
      + repeat split; intros; try lra; nra.
      + destruct (Rgt_dec (r - 0.5) 0) as [Hpos | Hz].
        * repeat split; intros; try lra; nra.
        * assert (r - 0.5 = 0) by lra.
          rewrite H, Rabs_R0 in Hout. lra. }
  destruct Hraw as (Hp & Hz & Hn).
  destruct (clamp_sign raw) as (Cp & Cz & Cn).
  rewrite Cp, Cz, Cn. repeat split; tauto.
Qed.

(** X3. The sign of the orientation tells the side: it is positive exactly
    when the nose tip is farther from the left face edge than from the right
    one, negative in the opposite case, and zero when the two distances are
    equal. *)
Theorem orientation_direction (l : landmarks) (o : R) :
  calculate_face_orientation l = Some o ->
  (0 < o <-> distance_to_right l < distance_to_left l)
  /\ (o = 0 <-> distance_to_left l = distance_to_right l)
  /\ (o < 0 <-> distance_to_left l < distance_to_right l).
Proof.
  intros Ho. apply guards_passed in Ho. destruct Ho as (_ & Hw & ->).
  pose proof (denominator_of_face l Hw) as Hden.
  destruct (response_sign (relative_pos l)) as (Hp & Hz & Hn).
  rewrite Hp, Hz, Hn.
  assert (Hr : relative_pos l * (distance_to_left l + distance_to_right l)
               = distance_to_left l)
    by (unfold relative_pos; field; lra).
  set (r := relative_pos l) in *.
  set (dl := distance_to_left l) in *.
  set (dr := distance_to_right l) in *.
  repeat split; intros; nra.
Qed.

Lemma orientation_direction_witness :
  distance_to_right (Sample.face 54) < distance_to_left (Sample.face 54).
Proof.
  apply (proj1 (orientation_direction (Sample.face 54) 0.4 sample_54)). lra.
Defined.

Lemma norm_diff_self (p : point) : norm_diff p p = 0.
Proof.
  unfold norm_diff. rewrite !Z.sub_diag, Rmult_0_l, Rplus_0_r. apply sqrt_0.
Qed.

Lemma response_one : response 1 = 1.
Proof.
  rewrite response_right by lra.
  replace (2 * (1 - 0.5)) with 1 by lra.
  unfold Rpower. now rewrite ln_1, Rmult_0_r, exp_0.
Qed.

(** X4. The estimator reaches both ends of its range: with the nose tip on
    the right face edge the orientation is 1, with the nose tip on the left
    face edge it is -1. *)
Theorem end_points (l : landmarks) :
  (31 <= List.length l)%nat -> 10 <= face_width l ->
  (row l 30 = row l 16 -> calculate_face_orientation l = Some 1)
  /\ (row l 30 = row l 0 -> calculate_face_orientation l = Some (Ropp 1)).
Proof.
  intros Hlen Hw.
  pose proof (denominator_of_face l Hw) as Hden.
  rewrite guards_pass by assumption.
  unfold relative_pos in *. unfold distance_to_left, distance_to_right in *.
  split; intros Hnose; rewrite Hnose in *; rewrite norm_diff_self in *.
  - rewrite Rplus_0_r in *.
    replace (norm_diff (row l 16) (row l 0) / norm_diff (row l 16) (row l 0))
      with 1 by (field; lra).
    now rewrite response_one.
  - replace (0 / (0 + norm_diff (row l 0) (row l 16))) with (1 - 1)
      by (field; lra).
    now rewrite response_odd, response_one.
Qed.

Lemma end_points_witness :
  calculate_face_orientation (Sample.face 100) = Some 1.
Proof.
  refine (proj1 (end_points (Sample.face 100) _ _) eq_refl).
  - rewrite sample_length. lia.
  - rewrite sample_width. lra.
Defined.

(** ** The smoother: the sequence of outputs *)

Lemma window_after_Forall (P : R -> Prop) (v : R) (w : list R) (n : Z) :
  P v -> Forall P w -> Forall P (Spec.window_after v w n).
Proof.
  intros Hv Hw. unfold Spec.window_after. cbv zeta.
  assert (Hall : Forall P (w ++ [v])) by (apply Forall_app; auto).
  destruct (n <? _)%Z; [| exact Hall].
  destruct (w ++ [v]); [constructor | now inversion Hall].
Qed.

Lemma smooth_each_from (n : nat) (values h : list R) :
  (1 <= n)%nat -> (List.length h <= n)%nat ->
  Sample.smooth_each values h (Z.of_nat n)
  = Ok (map (fun k : nat => Spec.mean (Spec.lastn n (h ++ firstn (S k) values)))
          (seq 0 (List.length values)),
        Spec.lastn n (h ++ values)).
Proof.
  intros Hn. revert h.
  induction values as [| v values IH]; intros h Hh.
  - cbn. now rewrite app_nil_r, lastn_all.
  - cbn [Sample.smooth_each].
    rewrite smoother_step by (apply window_after_nonempty; lia).
    rewrite window_after_lastn by assumption.
    rewrite IH by (rewrite lastn_length; lia).
    cbn [List.length]. rewrite <- cons_seq, <- seq_shift.
    cbn [map]. rewrite map_map.
    assert (Hk : forall k : nat,
               Spec.lastn n (Spec.lastn n (h ++ [v]) ++ firstn k values)
               = Spec.lastn n (h ++ firstn (S k) (v :: values))).
    { intros k. rewrite lastn_app_lastn, <- app_assoc. reflexivity. }
    f_equal. f_equal.
    + f_equal. apply map_ext. intros k. now rewrite Hk.
    + rewrite lastn_app_lastn, <- app_assoc. reflexivity.
Qed.

(** X6. Fed to an empty window one after the other, the inputs give as
    [k]-th output the mean of the last [min k n] inputs seen so far, and
    leave the last [n] inputs in the window ([n] the window size). *)
Theorem smoother_outputs (n : nat) (values : list R) :
  (1 <= n)%nat ->
  Sample.smooth_each values [] (Z.of_nat n)
  = Ok (map (fun k : nat => Spec.mean (Spec.lastn n (firstn (S k) values)))
          (seq 0 (List.length values)),
        Spec.lastn n values).
Proof.
  intros Hn. apply (smooth_each_from n values []); [assumption | simpl; lia].
Qed.

Lemma smoother_outputs_witness :
  Sample.smooth_each [1; 3] [] (Z.of_nat 1)
  = Ok (map (fun k : nat => Spec.mean (Spec.lastn 1 (firstn (S k) [1; 3])))
          (seq 0 2),
        Spec.lastn 1 [1; 3]).
Proof. apply (smoother_outputs 1 [1; 3]). lia. Defined.

(** ** Calibration: range of the offset, no confirmation *)

Lemma orientation_in_range (l : landmarks) (o : R) :
  calculate_face_orientation l = Some o -> -1 <= o <= 1.
Proof.
  intros Ho. apply guards_passed in Ho. destruct Ho as (_ & _ & ->).
  apply clamp_range.
Qed.

Lemma frame_orientation_in_range (f : frame) (o : R) :
  frame_orientation f = Some o -> -1 <= o <= 1.
Proof.
  destruct f as [shape |]; [apply orientation_in_range | discriminate].
Qed.

(** The sum of the readings stays within the count of the readings. *)
Lemma sampling_sum_bound (cam : list read) (keys : list Z) (n : nat) (s : R) :
  - INR n <= s <= INR n ->
  - INR (fst (fst (sampling cam keys n s)))
  <= snd (fst (sampling cam keys n s))
  <= INR (fst (fst (sampling cam keys n s))).
Proof.
  revert keys n s.
  induction cam as [| r cam IH]; intros keys n s Hs; simpl.
  - destruct (n <? 10)%nat; exact Hs.
  - destruct (n <? 10)%nat; [| exact Hs].
    destruct r as [f |]; [| exact Hs].
    destruct (frame_orientation f) as [o |] eqn:Ho.
    + apply IH. apply frame_orientation_in_range in Ho.
      rewrite S_INR. lra.
    + apply IH. exact Hs.
Qed.

Lemma mean_of_readings (n : nat) (s : R) :
  (0 < n)%nat -> - INR n <= s <= INR n -> -1 <= s / INR n <= 1.
Proof.
  intros Hn Hs.
  assert (Hpos : 0 < INR n) by now apply lt_0_INR.
  assert (Hm : s / INR n * INR n = s) by (field; lra).
  set (m := s / INR n) in *. split; nra.
Qed.

Lemma calibrate_loop_offset (fuel : nat) (w w' : world) (offset : R) :
  calibrate_loop fuel w = Some (Ok offset, w') -> -1 <= offset <= 1.
Proof.
  revert w.
  induction fuel as [| fuel IH]; intros w; [discriminate |].
  cbn [calibrate_loop].
  destruct (cap_read w) as [[f0 |] w1]; [| intros [= <- _]; lra].
  destruct (waitKey w1) as [key w2].
  destruct (Z.land key 255 =? 32)%Z; [| apply IH].
  destruct (cap_read w2) as [[f1 |] w3]; [| discriminate].
  pose proof (sampling_sum_bound (cam w3) (keys w3) 0 0) as Hsum.
  destruct (sampling (cam w3) (keys w3) 0 0) as [[n s] [cam' keys']].
  cbn [fst snd] in Hsum.
  destruct (Nat.ltb_spec 0 n) as [Hn | Hn]; [| apply IH].
  intros [= <- _]. apply mean_of_readings; [exact Hn |].
  apply Hsum. simpl. lra.
Qed.

(** X7. Whatever the camera shows and whatever keys are pressed, an offset
    returned by the calibration lies in [-1, 1]. *)
Theorem offset_in_range (w w' : world) (offset : R) :
  calibrate_face_orientation w = Some (Ok offset, w') -> -1 <= offset <= 1.
Proof. apply calibrate_loop_offset. Qed.

Lemma offset_in_range_witness :
  -1 <= sum [1; 1; 1; 1; 1; 0; 0; 0; 0; 0] / 10 <= 1.
Proof.
  assert (Hten : (10 <= List.length (Spec.accepted Sample.calibration_reads))%nat)
    by (rewrite sample_accepted; simpl; lia).
  destruct (calibrate_full_run [] None None 32 Sample.calibration_reads [] [] []
              (Forall_nil _) eq_refl sample_reads_successful Hten)
    as [w' Hw'].
  rewrite sample_accepted in Hw'. cbn [firstn] in Hw'.
  exact (offset_in_range _ w' _ Hw').
Defined.

Lemma calibrate_loop_raises (fuel : nat) (w w' : world) (e : exn) :
  calibrate_loop fuel w = Some (Raise e, w') -> e = CvError.
Proof.
  revert w.
  induction fuel as [| fuel IH]; intros w; [discriminate |].
  cbn [calibrate_loop].
  destruct (cap_read w) as [[f0 |] w1]; [| discriminate].
  destruct (waitKey w1) as [key w2].
  destruct (Z.land key 255 =? 32)%Z; [| apply IH].
  destruct (cap_read w2) as [[f1 |] w3]; [| now intros [= <- _]].
  destruct (sampling (cam w3) (keys w3) 0 0) as [[n s] [cam' keys']].
  destruct (0 <? n)%nat; [discriminate | apply IH].
Qed.

Lemma calibrate_loop_unconfirmed (frames : list frame) :
  forall (fuel : nat) (tail : list read) (ks : list Z) (out : list message),
    Forall (fun k : Z => Z.land k 255 <> 32%Z) ks ->
    hd None tail = None ->
    (List.length frames < fuel)%nat ->
    calibrate_loop fuel
      {| cam := map Some frames ++ tail; keys := ks; stdout := out |}
    = Some (Ok 0, {| cam := tl tail; keys := skipn (List.length frames) ks;
                     stdout := out |}).
Proof.
  induction frames as [| f frames IH]; intros fuel tail ks out Hks Htail Hfuel.
  - destruct fuel as [| fuel]; [simpl in Hfuel; lia |].
    destruct tail as [| r tail]; cbn in *; [reflexivity |].
    subst r. reflexivity.
  - destruct fuel as [| fuel]; [simpl in Hfuel; lia |].
    cbn [map app calibrate_loop cap_read waitKey cam keys stdout].
    assert (Hkey : Z.land (hd (-1)%Z ks) 255 <> 32%Z).
    { destruct Hks as [| k ks Hk _]; [cbn; lia | exact Hk]. }
    destruct (Z.eqb_spec (Z.land (hd (-1)%Z ks) 255) 32); [contradiction |].
    rewrite IH.
    + cbn [List.length]. do 2 f_equal. f_equal.
      destruct ks; [now destruct (List.length frames) | reflexivity].
    + destruct Hks; [constructor | assumption].
    + exact Htail.
    + simpl in Hfuel. lia.
Qed.

(** X9. When the operator never presses SPACE, the calibration ends at the
    first failed read and returns the default offset 0.0, having printed its
    prompt and nothing else: no failure is reported. *)
Theorem calibration_unconfirmed
  (frames : list frame) (tail : list read) (ks : list Z) (out : list message) :
  Forall (fun k : Z => Z.land k 255 <> 32%Z) ks ->
  hd None tail = None ->
  calibrate_face_orientation
    {| cam := map Some frames ++ tail; keys := ks; stdout := out |}
  = Some (Ok 0, {| cam := tl tail; keys := skipn (List.length frames) ks;
                   stdout := out ++ [CalibrationPrompt] |}).
Proof.
  intros Hks Htail.
  unfold calibrate_face_orientation, print. cbn [cam keys stdout].
  apply calibrate_loop_unconfirmed; [assumption | assumption |].
  rewrite length_app, length_map. lia.
Qed.

Lemma calibration_unconfirmed_witness :
  calibrate_face_orientation
    {| cam := map Some [None; Some (Sample.face_shape 54)] ++ [None];
       keys := [255%Z; 113%Z]; stdout := [] |}
  = Some (Ok 0, {| cam := tl [None];
                   keys := skipn 2 [255%Z; 113%Z];
                   stdout := [] ++ [CalibrationPrompt] |}).
Proof.
  apply (calibration_unconfirmed [None; Some (Sample.face_shape 54)] [None]
           [255%Z; 113%Z] []).
  - repeat constructor; cbn; lia.
  - reflexivity.
Defined.

(** ** The loop of [main]: termination, invariants, the log *)

Lemma calibrate_loop_cam (fuel : nat) (w w' : world) (r : result R) :
  calibrate_loop fuel w = Some (r, w') ->
  (List.length (cam w') <= List.length (cam w))%nat.
Proof.
  revert w.
  induction fuel as [| fuel IH]; intros [c k out]; [discriminate |].
  destruct c as [| [f0 |] c]; cbn [calibrate_loop cap_read cam keys stdout];
    try (intros [= _ <-]; simpl; lia).
  cbn [waitKey cam keys stdout].
  destruct (Z.land (hd (-1)%Z k) 255 =? 32)%Z.
  - destruct c as [| [f1 |] c]; cbn [cap_read cam keys stdout];
      try (intros [= _ <-]; simpl; lia).
    pose proof (sampling_cam_length c (tl k) 0 0) as Hlen.
    destruct (sampling c (tl k) 0 0) as [[n s] [cam' keys']].
    cbn [fst snd] in Hlen.
    destruct (0 <? n)%nat.
    + intros [= _ <-]. simpl. lia.
    + intros Hrun. apply IH in Hrun. simpl in *. lia.
  - intros Hrun. apply IH in Hrun. simpl in *. lia.
Qed.

Lemma calibration_branch_cam (w w' : world) (s : session) (r : result session) :
  calibration_branch w s = Some (r, w') ->
  (List.length (cam w') <= List.length (cam w))%nat.
Proof.
  unfold calibration_branch, calibrate_face_orientation.
  destruct (calibrate_loop _ _) as [[[offset | e] w1] |] eqn:Hrun;
    [| | discriminate];
    apply calibrate_loop_cam in Hrun; intros [= _ <-]; simpl in *; lia.
Qed.

(** A turn takes at least one read, unless the read fails. *)
Lemma main_turn_cam (now : clock) (w w' : world) (s : session)
  (r : result (control * session)) :
  main_turn now w s = Some (r, w') ->
  (List.length (cam w') <= List.length (cam w))%nat
  /\ (forall s' : session,
        r = Ok (Continue, s') -> (List.length (cam w') < List.length (cam w))%nat).
Proof.
  destruct w as [c k out]. unfold main_turn.
  destruct c as [| [f |] c]; cbn [cap_read cam keys stdout].
  - intros [= <- <-]. split; [simpl; lia | discriminate].
  - cbn [waitKey cam keys stdout].
    destruct (Z.land (hd (-1)%Z k) 255 =? 99)%Z.
    + destruct (calibration_branch _ s) as [[[s1 | e] w1] |] eqn:Hbranch;
        [| | discriminate];
        apply calibration_branch_cam in Hbranch; intros [= <- <-];
        simpl in *; split; try lia; intros; lia.
    + destruct (Z.land (hd (-1)%Z k) 255 =? 113)%Z.
      * intros [= <- <-]. simpl. split; [lia | discriminate].
      * destruct (frame_orientation f) as [raw |].
        -- destruct (track raw now s); intros [= <- <-]; simpl;
             split; try lia; intros; lia.
        -- intros [= <- <-]. simpl. split; [lia | intros; lia].
  - intros [= <- <-]. split; [simpl; lia | discriminate].
Qed.

Lemma main_loop_total (fuel : nat) (clocks : nat -> clock) (turn : nat)
  (w : world) (s : session) :
  (List.length (cam w) < fuel)%nat ->
  Program.main_loop fuel clocks turn w s <> None.
Proof.
  revert turn w s.
  induction fuel as [| fuel IH]; intros turn w s Hfuel; [lia |].
  cbn [Program.main_loop].
  destruct (main_turn_returns (clocks turn) w s) as [[r w'] Hturn].
  rewrite Hturn.
  destruct r as [[[|] s'] | e]; try discriminate.
  apply IH.
  destruct (main_turn_cam _ _ _ _ _ Hturn) as [_ Hlt].
  specialize (Hlt s' eq_refl). lia.
Qed.


Lemma sound_initial (start_time : R) : Program.sound (initial_session start_time).
Proof.
  constructor; cbn; try constructor; try lra; try lia.
Qed.

Lemma calibration_branch_offset (w w' : world) (s s' : session) :
  calibration_branch w s = Some (Ok s', w') -> -1 <= center_offset s' <= 1.
Proof.
  unfold calibration_branch, calibrate_face_orientation.
  destruct (calibrate_loop _ _) as [[[offset | e] w1] |] eqn:Hrun;
    [| discriminate | discriminate].
  apply calibrate_loop_offset in Hrun. now intros [= <- _].
Qed.

Lemma calibration_branch_sound (w w' : world) (s s' : session) :
  calibration_branch w s = Some (Ok s', w') -> Program.sound s -> Program.sound s'.
Proof.
  intros Hbranch [Hshort Hvalues Hoffset Hrows Hlast].
  pose proof (calibration_branch_offset _ _ _ _ Hbranch) as Hoff.
  apply calibration_branch_frame in Hbranch.
  destruct Hbranch as (_ & Hv & _ & Hh & Hc).
  constructor; unfold Program.last_logged in *; rewrite ?Hh, ?Hc, ?Hv;
    assumption.
Qed.

Lemma track_never_raises (raw : R) (now : clock) (s : session) (e : exn) :
  track raw now s <> Raise e.
Proof.
  unfold track.
  rewrite smoother_step
    by (apply window_after_nonempty; unfold default_window_size; lia).
  discriminate.
Qed.

Lemma write_if_due_sound (final : R) (now : clock) (s : session) :
  -1 <= final <= 1 -> Program.sound s -> Program.sound (write_if_due final now s).
Proof.
  intros Hfinal [Hshort Hvalues Hoffset Hrows Hlast].
  unfold write_if_due. cbv zeta.
  destruct (must_write _ _ _); [| now constructor].
  constructor; cbn; try assumption.
  - apply Forall_app. split; [assumption |].
    constructor; [exact Hfinal | constructor].
  - unfold Program.last_logged. cbn. now rewrite rev_unit.
Qed.

Lemma track_sound (raw : R) (now : clock) (s s' : session) :
  -1 <= raw <= 1 -> track raw now s = Ok s' ->
  Program.sound s -> Program.sound s'.
Proof.
  intros Hraw Hrun Hs.
  destruct Hs as [Hshort Hvalues Hoffset Hrows Hlast].
  unfold track in Hrun.
  assert (Hne : Spec.window_after (raw - center_offset s) (orientation_history s)
                  default_window_size <> [])
    by (apply window_after_nonempty; unfold default_window_size; lia).
  rewrite smoother_step in Hrun by exact Hne.
  injection Hrun as <-.
  apply write_if_due_sound; [apply clamp_range |].
  constructor; cbn; try assumption.
  - pose proof (window_after_bounded (raw - center_offset s)
                  (orientation_history s) 5) as Hb.
    unfold default_window_size. lia.
  - apply window_after_Forall; [lra | assumption].
Qed.

Lemma main_turn_sound (now : clock) (w w' : world) (s s' : session)
  (ctl : control) :
  main_turn now w s = Some (Ok (ctl, s'), w') ->
  Program.sound s -> Program.sound s'.
Proof.
  unfold main_turn.
  destruct (cap_read w) as [[f |] w1]; [| now intros [= _ <- _]].
  destruct (waitKey w1) as [key w2].
  destruct (Z.land key 255 =? 99)%Z.
  - destruct (calibration_branch w2 s) as [[[s1 | e] w3] |] eqn:Hbranch;
      try discriminate.
    intros [= _ <- _]. now apply (calibration_branch_sound _ _ _ _ Hbranch).
  - destruct (Z.land key 255 =? 113)%Z; [now intros [= _ <- _] |].
    destruct (frame_orientation f) as [raw |] eqn:Hraw;
      [| now intros [= _ <- _]].
    destruct (track raw now s) as [s1 | e] eqn:Hrun; [| discriminate].
    intros [= _ <- _].
    apply (track_sound raw now s s1); [| exact Hrun].
    now apply (frame_orientation_in_range f).
Qed.

Lemma main_loop_sound (fuel : nat) (clocks : nat -> clock) (turn : nat)
  (w w' : world) (s s' : session) :
  Program.main_loop fuel clocks turn w s = Some (Ok s', w') ->
  Program.sound s -> Program.sound s'.
Proof.
  revert turn w s.
  induction fuel as [| fuel IH]; intros turn w s; [discriminate |].
  cbn [Program.main_loop].
  destruct (main_turn (clocks turn) w s) as [[[[[|] s1] | e] w1] |] eqn:Hturn;
    try discriminate.
  - intros Hrun Hs. apply (IH _ _ _ Hrun).
    now apply (main_turn_sound _ _ _ _ _ _ Hturn).
  - intros [= <- _]. now apply (main_turn_sound _ _ _ _ _ _ Hturn).
Qed.

(** A session on one frame that shows a face, followed by a failed read. *)
Lemma one_frame_session :
  exists (s : session) (w' : world),
    Program.run_session 0 (fun _ : nat => Sample.early)
      {| cam := [Sample.shows 54]; keys := []; stdout := [] |}
    = Some (Ok s, w').
Proof.
  unfold Program.run_session, Sample.shows.
  cbn [List.length cam Program.main_loop main_turn cap_read waitKey keys
       stdout hd tl].
  change (Z.land (-1) 255 =? 99)%Z with false.
  change (Z.land (-1) 255 =? 113)%Z with false.
  cbv iota.
  change (frame_orientation (Some (Sample.face_shape 54)))
    with (calculate_face_orientation (Sample.face 54)).
  rewrite sample_54.
  destruct (track 0.4 Sample.early (initial_session 0)) as [s1 | e] eqn:Hrun;
    [| now apply track_never_raises in Hrun].
  eexists _, _. reflexivity.
Qed.

(** X11. When the main loop ends normally, every row of the log was printed
    from a number in [-1, 1], so that the two decimals of line 260 read
    between -1.00 and 1.00; and no value is kept as last logged exactly when
    the log has no row. *)
Theorem log_invariant (start_time : R) (clocks : nat -> clock)
  (w w' : world) (s : session) :
  Program.run_session start_time clocks w = Some (Ok s, w') ->
  Forall (fun row : csv_row => -1 <= orientation row <= 1) (csvfile s)
  /\ (last_orientation_value s = None <-> csvfile s = []).
Proof.
  intros Hrun. apply main_loop_sound in Hrun; [| apply sound_initial].
  destruct Hrun as [_ _ _ Hrows Hlast].
  split; [exact Hrows |].
  rewrite Hlast. unfold Program.last_logged.
  destruct (csvfile s) as [| row rows] using rev_ind.
  - split; reflexivity.
  - rewrite rev_unit. split; [discriminate |].
    intros H. now destruct rows.
Qed.

Lemma log_invariant_witness :
  exists s : session,
    Forall (fun row : csv_row => -1 <= orientation row <= 1) (csvfile s)
    /\ (last_orientation_value s = None <-> csvfile s = []).
Proof.
  destruct one_frame_session as (s & w' & Hrun).
  exists s.
  exact (log_invariant 0 (fun _ : nat => Sample.early) _ w' s Hrun).
Defined.

(** X12. When the main loop ends normally, the smoothing window holds at
    most five values, each in [-2, 2] (a raw orientation minus an offset),
    and the calibration offset lies in [-1, 1]. *)
Theorem session_ranges (start_time : R) (clocks : nat -> clock)
  (w w' : world) (s : session) :
  Program.run_session start_time clocks w = Some (Ok s, w') ->
  (List.length (orientation_history s) <= 5)%nat
  /\ Forall (fun v : R => -2 <= v <= 2) (orientation_history s)
  /\ -1 <= center_offset s <= 1.
Proof.
  intros Hrun. apply main_loop_sound in Hrun; [| apply sound_initial].
  destruct Hrun as [Hshort Hvalues Hoffset _ _]. auto.
Qed.

Lemma session_ranges_witness :
  exists s : session,
    (List.length (orientation_history s) <= 5)%nat
    /\ -1 <= center_offset s <= 1.
Proof.
  destruct one_frame_session as (s & w' & Hrun).
  exists s.
  exact ((fun H => conj (proj1 H) (proj2 (proj2 H)))
           (session_ranges 0 (fun _ : nat => Sample.early) _ w' s Hrun)).
Defined.

Lemma track_log (raw : R) (now : clock) (s s' : session) :
  track raw now s = Ok s' ->
  exists rows : list csv_row,
    csvfile s' = csvfile s ++ rows /\ (List.length rows <= 1)%nat.
Proof.
  unfold track.
  rewrite smoother_step
    by (apply window_after_nonempty; unfold default_window_size; lia).
  intros [= <-]. unfold write_if_due. cbv zeta.
  destruct (must_write _ _ _); cbn.
  - eexists. split; [reflexivity | simpl; lia].
  - exists []. split; [now rewrite app_nil_r | simpl; lia].
Qed.

Lemma main_turn_log (now : clock) (w w' : world) (s s' : session)
  (ctl : control) :
  main_turn now w s = Some (Ok (ctl, s'), w') ->
  exists rows : list csv_row,
    csvfile s' = csvfile s ++ rows
    /\ (List.length rows + List.length (cam w') <= List.length (cam w))%nat.
Proof.
  intros Hturn.
  destruct (main_turn_cam _ _ _ _ _ Hturn) as [Hle Hlt].
  assert (Hnone : s' = s \/ csvfile s' = csvfile s ->
                  exists rows : list csv_row,
                    csvfile s' = csvfile s ++ rows
                    /\ (List.length rows + List.length (cam w')
                        <= List.length (cam w))%nat).
  { intros H. exists []. rewrite app_nil_r.
    split; [destruct H; congruence | simpl; lia]. }
  revert Hturn. unfold main_turn.
  destruct (cap_read w) as [[f |] w1]; [| intros [= _ <- _]; auto].
  destruct (waitKey w1) as [key w2].
  destruct (Z.land key 255 =? 99)%Z.
  - destruct (calibration_branch w2 s) as [[[s1 | e] w3] |] eqn:Hbranch;
      try discriminate.
    intros [= _ <- _]. apply Hnone. right.
    now apply calibration_branch_frame in Hbranch.
  - destruct (Z.land key 255 =? 113)%Z; [intros [= _ <- _]; auto |].
    destruct (frame_orientation f) as [raw |]; [| intros [= _ <- _]; auto].
    destruct (track raw now s) as [s1 | e] eqn:Hrun; [| discriminate].
    intros [= <- <- _].
    destruct (track_log _ _ _ _ Hrun) as (rows & Hrows & Hone).
    exists rows. split; [exact Hrows |].
    specialize (Hlt s1 eq_refl). lia.
Qed.

Lemma main_loop_log (fuel : nat) (clocks : nat -> clock) (turn : nat)
  (w w' : world) (s s' : session) :
  Program.main_loop fuel clocks turn w s = Some (Ok s', w') ->
  exists rows : list csv_row,
    csvfile s' = csvfile s ++ rows
    /\ (List.length rows + List.length (cam w') <= List.length (cam w))%nat.
Proof.
  revert turn w s.
  induction fuel as [| fuel IH]; intros turn w s; [discriminate |].
  cbn [Program.main_loop].
  destruct (main_turn (clocks turn) w s) as [[[[[|] s1] | e] w1] |] eqn:Hturn;
    try discriminate.
  - intros Hrun.
    destruct (main_turn_log _ _ _ _ _ _ Hturn) as (rows1 & Hrows1 & Hlen1).
    destruct (IH _ _ _ Hrun) as (rows2 & Hrows2 & Hlen2).
    exists (rows1 ++ rows2). rewrite Hrows2, Hrows1, app_assoc, length_app.
    split; [reflexivity | lia].
  - intros [= <- <-]. now apply (main_turn_log _ _ _ _ _ _ Hturn).
Qed.

(** X13. The main loop only ever appends to the log, and at most one row for
    each frame it reads: at the end, the rows added and the reads left over
    are together no more than the reads there were. *)
Theorem log_growth (fuel : nat) (clocks : nat -> clock) (turn : nat)
  (w w' : world) (s s' : session) :
  Program.main_loop fuel clocks turn w s = Some (Ok s', w') ->
  exists rows : list csv_row,
    csvfile s' = csvfile s ++ rows
    /\ (List.length rows + List.length (cam w') <= List.length (cam w))%nat.
Proof. apply main_loop_log. Qed.

Lemma log_growth_witness :
  exists (s' : session) (w' : world) (rows : list csv_row),
    csvfile s' = csvfile (initial_session 0) ++ rows
    /\ (List.length rows + List.length (cam w') <= 1)%nat.
Proof.
  destruct one_frame_session as (s' & w' & Hrun).
  exists s', w'.
  exact (log_growth _ _ _ _ w' _ s' Hrun).
Defined.

Lemma main_loop_raises (fuel : nat) (clocks : nat -> clock) (turn : nat)
  (w w' : world) (s : session) (e : exn) :
  Program.main_loop fuel clocks turn w s = Some (Raise e, w') -> e = CvError.
Proof.
  revert turn w s.
  induction fuel as [| fuel IH]; intros turn w s; [discriminate |].
  cbn [Program.main_loop].
  destruct (main_turn (clocks turn) w s) as [[[[[|] s1] | e1] w1] |] eqn:Hturn;
    try discriminate; [apply IH |].
  intros [= <- _]. revert Hturn. unfold main_turn.
  destruct (cap_read w) as [[f |] w2]; [| discriminate].
  destruct (waitKey w2) as [key w3].
  destruct (Z.land key 255 =? 99)%Z.
  - unfold calibration_branch, calibrate_face_orientation.
    destruct (calibrate_loop _ _) as [[[offset | e2] w4] |] eqn:Hrun;
      try discriminate.
    intros [= <- _]. now apply calibrate_loop_raises in Hrun.
  - destruct (Z.land key 255 =? 113)%Z; [discriminate |].
    destruct (frame_orientation f) as [raw |]; [| discriminate].
    destruct (track raw (clocks turn) s) as [s2 | e2] eqn:Hrun;
      [discriminate |].
    now apply track_never_raises in Hrun.
Qed.



(** ** The gate: no second row for the same pose *)

(** X15. After a row was written, a value within 0.03 of the written one
    that arrives less than 0.5 seconds later is not written: the session
    stays as the first write left it. *)
Theorem no_second_row (final next : R) (now later : clock) (s : session) :
  Spec.due final (time_time now) s ->
  Rabs (next - final) <= 0.03 ->
  time_time later - time_time now < 0.5 ->
  write_if_due next later (write_if_due final now s) = write_if_due final now s.
Proof.
  intros Hdue Hnear Hsoon.
  apply must_write_due in Hdue.
  unfold write_if_due at 2 3. cbv zeta. rewrite Hdue.
  unfold write_if_due, must_write. cbv zeta. cbn [last_orientation_value last_write_time].
  destruct (Rgt_dec (Rabs (next - final)) 0.03); [lra |].
  destruct (Rge_dec (time_time later - time_time now) 0.5); [lra |].
  reflexivity.
Qed.

Lemma no_second_row_witness :
  write_if_due 0.14 Sample.early (write_if_due 0.14 Sample.early (initial_session 0))
  = write_if_due 0.14 Sample.early (initial_session 0).
Proof.
  apply (no_second_row 0.14 0.14 Sample.early Sample.early (initial_session 0)).
  - left. reflexivity.
  - replace (0.14 - 0.14) with 0 by lra. rewrite Rabs_R0. lra.
  - lra.
Defined.

(** ** The demultiplexer: lines as text, the logs of a stream *)

Section LineText.

Local Open Scope string_scope.
Local Open Scope list_scope.

Lemma join_split (line : string) :
  Stream.join_comma (Leg.split_comma line) = line.
Proof.
  induction line as [| c rest IH]; [reflexivity |].
  cbn [Leg.split_comma].
  destruct (Leg.split_comma rest) as [| field fields] eqn:E.
  - now apply split_comma_nonempty in E.
  - destruct (Ascii.eqb_spec c ",") as [-> | Hc].
    + change (Stream.join_comma (EmptyString :: field :: fields))
        with (EmptyString ++ "," ++ Stream.join_comma (field :: fields))%string.
      now rewrite IH.
    + destruct fields as [| next fields].
      * cbn [Stream.join_comma] in *. now rewrite IH.
      * change (Stream.join_comma (String c field :: next :: fields))
          with (String c (field ++ "," ++ Stream.join_comma (next :: fields))%string).
        change (Stream.join_comma (field :: next :: fields))
          with (field ++ "," ++ Stream.join_comma (next :: fields))%string in IH.
        now rewrite IH.
Qed.

Lemma split_comma_free (field : string) :
  Stream.comma_free field = true -> Leg.split_comma field = [field].
Proof.
  induction field as [| c rest IH]; [reflexivity |].
  cbn. destruct (Ascii.eqb c ","); [discriminate |].
  cbn. intros Hrest. now rewrite IH.
Qed.

Lemma split_field_comma (field rest : string) :
  Stream.comma_free field = true ->
  Leg.split_comma (field ++ String "," rest)%string
  = field :: Leg.split_comma rest.
Proof.
  induction field as [| c field IH]; [reflexivity |].
  cbn [Stream.comma_free String.append Leg.split_comma].
  destruct (Ascii.eqb c ","); [discriminate |].
  cbn [negb andb]. intros Hfield. now rewrite IH.
Qed.

Lemma split_join (fields : list string) :
  fields <> [] ->
  forallb Stream.comma_free fields = true ->
  Leg.split_comma (Stream.join_comma fields) = fields.
Proof.
  induction fields as [| field fields IH]; [contradiction |].
  intros _ Hfree. cbn [forallb] in Hfree.
  apply andb_prop in Hfree. destruct Hfree as [Hfield Hfields].
  destruct fields as [| next fields].
  - now apply split_comma_free.
  - change (Stream.join_comma (field :: next :: fields))
      with (field ++ String "," (Stream.join_comma (next :: fields)))%string.
    rewrite split_field_comma by assumption.
    rewrite IH; [reflexivity | discriminate | assumption].
Qed.

Lemma split_fields_free (line : string) :
  forallb Stream.comma_free (Leg.split_comma line) = true.
Proof.
  induction line as [| c rest IH]; [reflexivity |].
  cbn [Leg.split_comma].
  destruct (Ascii.eqb_spec c ",") as [-> | Hc]; [exact IH |].
  destruct (Leg.split_comma rest) as [| field fields]; cbn in *.
  - destruct (Ascii.eqb_spec c ","); [contradiction | reflexivity].
  - destruct (Ascii.eqb_spec c ","); [contradiction | exact IH].
Qed.

Lemma split_count (line : string) :
  List.length (Leg.split_comma line) = S (Stream.commas line).
Proof.
  induction line as [| c rest IH]; [reflexivity |].
  cbn [Leg.split_comma Stream.commas].
  destruct (Ascii.eqb c ","); cbn [List.length]; [now rewrite IH |].
  destruct (Leg.split_comma rest) as [| field fields]; cbn in *; lia.
Qed.

(** X16. Splitting a line on commas loses nothing: joining the fields with
    commas gives the line back, no field holds a comma, and there is one
    field more than there are commas; and comma-free fields joined with
    commas split into themselves. *)
Theorem split_round_trip (line : string) (fields : list string) :
  Stream.join_comma (Leg.split_comma line) = line
  /\ forallb Stream.comma_free (Leg.split_comma line) = true
  /\ List.length (Leg.split_comma line) = S (Stream.commas line)
  /\ (fields <> [] -> forallb Stream.comma_free fields = true ->
      Leg.split_comma (Stream.join_comma fields) = fields).
Proof.
  split; [apply join_split |].
  split; [apply split_fields_free |].
  split; [apply split_count | apply split_join].
Qed.

Lemma split_round_trip_witness :
  Leg.split_comma (Stream.join_comma ["ECG"; "512"]) = ["ECG"; "512"].
Proof.
  apply (proj2 (proj2 (proj2 (split_round_trip "" ["ECG"; "512"])))).
  - discriminate.
  - reflexivity.
Defined.

End LineText.

Section StreamFacts.

Variable float : Type.
Variable py_int : string -> option Z.
Variable py_float : string -> option float.

Local Open Scope string_scope.
Local Open Scope list_scope.

Local Abbreviation state := (Leg.state float).
Local Abbreviation process_line := (Leg.process_line float py_int py_float).
Local Abbreviation run := (Leg.run float py_int py_float).
Local Abbreviation record_of := (Leg.record_of float py_int py_float).
Local Abbreviation ecg_rows := (Stream.ecg_rows float py_int py_float).
Local Abbreviation imu_rows := (Stream.imu_rows float py_int py_float).

(** The lines that carry an ECG record. *)
Lemma ecg_record_text (line : string) (value : Z) :
  record_of line = Some (Leg.ECGRecord value)
  <-> exists text : string,
        line = ("ECG," ++ text)%string
        /\ Stream.comma_free text = true
        /\ py_int text = Some value.
Proof.
  rewrite (record_of_ecg float py_int py_float). split.
  - intros (field & Hsplit & Hint). exists field.
    pose proof (join_split line) as Hjoin.
    pose proof (split_fields_free line) as Hfree.
    rewrite Hsplit in Hjoin, Hfree. cbn in Hjoin, Hfree.
    rewrite andb_true_r in Hfree. now split.
  - intros (text & -> & Hfree & Hint). exists text. split; [| exact Hint].
    apply (split_join ["ECG"; text]); [discriminate |].
    cbn. now rewrite Hfree.
Qed.

Ltac by_line line :=
  let E := fresh "E" in
  destruct (Leg.split_comma line)
    as [| tag [| v1 [| v2 [| v3 [| v4 [| v5 [| v6 [| v7 more]]]]]]]] eqn:E;
  [exfalso; exact (split_comma_nonempty line E) | ..];
  cbn;
  destruct (tag =? "ECG") eqn:Hecg; destruct (tag =? "IMU") eqn:Himu; cbn;
  unfold Leg.to_int, Leg.to_float;
  repeat match goal with
         | |- context [py_int ?v] => destruct (py_int v) eqn:?; cbn
         | |- context [py_float ?v] => destruct (py_float v) eqn:?; cbn
         end.

(** What one line does to the state, by the record it carries. *)
Lemma process_line_effect (timestamp : string) (now : R) (line : string)
  (st : state) :
  process_line timestamp now line st
  = Ok match record_of line with
       | Some (Leg.ECGRecord value) =>
           Leg.print_statistics float now
             (Leg.write_ecg float timestamp value st)
       | Some (Leg.IMURecord values) =>
           Leg.print_statistics float now
             (Leg.write_imu float timestamp values st)
       | None =>
           if Stream.recognised line then Leg.skip float line ValueError st
           else Leg.print_statistics float now st
       end.
Proof.
  unfold Leg.process_line, Leg.try_body, Leg.record_of, Stream.recognised.
  by_line line; rewrite ?Hecg, ?Himu; reflexivity.
Qed.

Lemma print_statistics_counts (now : R) (st : state) :
  Leg.ecg_count (Leg.print_statistics float now st) = Leg.ecg_count st
  /\ Leg.imu_count (Leg.print_statistics float now st) = Leg.imu_count st.
Proof.
  unfold Leg.print_statistics. destruct (Rge_dec _ _); split; reflexivity.
Qed.

Lemma run_rows (arrivals : list (string * R * string)) (st : state) :
  exists st_end : state,
    run arrivals st = Ok st_end
    /\ Leg.ecg_file st_end = Leg.ecg_file st ++ ecg_rows arrivals
    /\ Leg.imu_file st_end = Leg.imu_file st ++ imu_rows arrivals
    /\ Leg.ecg_count st_end
       = (Leg.ecg_count st + List.length (ecg_rows arrivals))%nat
    /\ Leg.imu_count st_end
       = (Leg.imu_count st + List.length (imu_rows arrivals))%nat.
Proof.
  revert st.
  induction arrivals as [| [[timestamp now] line] rest IH]; intros st.
  - exists st. cbn. rewrite !app_nil_r, !Nat.add_0_r. auto.
  - cbn [Leg.run]. rewrite process_line_effect. cbn [Leg.bind].
    match goal with |- context [run rest ?mid] =>
      destruct (IH mid) as (st_end & Hrun & He & Hi & Hce & Hci)
    end.
    exists st_end. split; [exact Hrun |].
    rewrite He, Hi, Hce, Hci.
    unfold Stream.ecg_rows, Stream.imu_rows. cbn [flat_map fst snd].
    destruct (record_of line) as [[value | values] |];
      [| | destruct (Stream.recognised line)];
      repeat match goal with
             | |- context [Leg.print_statistics float now ?v] =>
                 destruct (print_statistics_logs float now v) as [-> ->];
                 destruct (print_statistics_counts now v) as [-> ->]
             end;
      cbn [Leg.write_ecg Leg.write_imu Leg.skip Leg.ecg_file Leg.imu_file
           Leg.ecg_count Leg.imu_count app List.length];
      rewrite <- ?app_assoc; cbn [app];
      repeat split; try reflexivity; lia.
Qed.

(** X17. Whatever the line, no exception escapes the [try] of lines 54-97,
    and it has written a row to the ECG log exactly when the line reads
    [ECG,<text>] with a text that holds no comma and that [int] accepts: the
    row carries the timestamp of the line and that integer. *)
Theorem ecg_line_form (timestamp : string) (now : R) (line : string)
  (st : state) (value : Z) :
  exists st' : state,
    process_line timestamp now line st = Ok st'
    /\ (Leg.ecg_file st' = Leg.ecg_file st ++ [(timestamp, value)]
        <-> exists text : string,
              line = ("ECG," ++ text)%string
              /\ Stream.comma_free text = true
              /\ py_int text = Some value).
Proof.
  rewrite process_line_effect. eexists. split; [reflexivity |].
  rewrite <- ecg_record_text.
  assert (Hsame : Leg.ecg_file st <> Leg.ecg_file st ++ [(timestamp, value)]).
  { intros H. apply (f_equal (@List.length _)) in H.
    rewrite length_app in H. cbn in H. lia. }
  destruct (record_of line) as [[found | values] |].
  - destruct (print_statistics_logs float now
                (Leg.write_ecg float timestamp found st)) as [-> _].
    cbn [Leg.write_ecg Leg.ecg_file]. split.
    + intros H. apply app_inv_head in H. now injection H as ->.
    + now intros [= ->].
  - destruct (print_statistics_logs float now
                (Leg.write_imu float timestamp values st)) as [-> _].
    cbn [Leg.write_imu Leg.ecg_file].
    split; [intros H; contradiction | discriminate].
  - destruct (Stream.recognised line).
    + cbn [Leg.skip Leg.ecg_file].
      split; [intros H; contradiction | discriminate].
    + destruct (print_statistics_logs float now st) as [-> _].
      split; [intros H; contradiction | discriminate].
Qed.


End StreamFacts.

Section BytesFacts.

Variable float : Type.
Variable py_int : string -> option Z.
Variable py_float : string -> option float.
Variable decode : list Byte.byte -> option string.
Variable strip : string -> string.

Local Open Scope string_scope.
Local Open Scope list_scope.

Local Abbreviation state := (Leg.state float).
Local Abbreviation run := (Leg.run float py_int py_float).
Local Abbreviation receive := (Stream.receive float py_int py_float decode strip).
Local Abbreviation decoded := (Stream.decoded decode strip).
Local Abbreviation all_decode := (Stream.all_decode decode).
Local Abbreviation ecg_rows := (Stream.ecg_rows float py_int py_float).
Local Abbreviation imu_rows := (Stream.imu_rows float py_int py_float).

(** The loop stands where the [try] leaves the decoded lines: waiting for
    more when every arrival decoded, ended by the first that did not. *)
Lemma receive_decoded (arrivals : list (string * R * list Byte.byte)) :
  forall st st_end : state,
    run (decoded arrivals) st = Ok st_end ->
    receive arrivals st
    = if all_decode arrivals then Stream.Polling st_end
      else Stream.UnicodeDecodeError st_end.
Proof.
  induction arrivals as [| [[timestamp now] raw] rest IH]; intros st st_end.
  - now intros [= ->].
  - cbn [Stream.receive Stream.decoded Stream.all_decode forallb snd].
    destruct (decode raw) as [text |]; [| now intros [= ->]].
    cbn [Leg.run andb].
    destruct (process_line_ok float py_int py_float timestamp now (strip text) st)
      as (st' & -> & _).
    cbn [Leg.bind]. apply IH.
Qed.

(** X18. On the lines that the port delivers, the loop of lines 45-100
    goes on as long as they are UTF-8.  Up to the first arrival that is not,
    the ECG log receives the ECG records of the lines and the IMU log the IMU
    records, each with the timestamp of its line and in the order of
    arrival, and the two counters grow by the numbers of rows written.  An
    arrival that does not decode ends the loop with a [UnicodeDecodeError]
    (line 48 is before the [try]), with the logs as the lines before it left
    them: what arrives later is not read. *)
Theorem stream_logs (arrivals : list (string * R * list Byte.byte))
  (st : state) :
  exists st_end : state,
    receive arrivals st
    = (if all_decode arrivals then Stream.Polling st_end
       else Stream.UnicodeDecodeError st_end)
    /\ Leg.ecg_file st_end = Leg.ecg_file st ++ ecg_rows (decoded arrivals)
    /\ Leg.imu_file st_end = Leg.imu_file st ++ imu_rows (decoded arrivals)
    /\ Leg.ecg_count st_end
       = (Leg.ecg_count st + List.length (ecg_rows (decoded arrivals)))%nat
    /\ Leg.imu_count st_end
       = (Leg.imu_count st + List.length (imu_rows (decoded arrivals)))%nat
    /\ (List.length (ecg_rows (decoded arrivals))
        + List.length (imu_rows (decoded arrivals))
        <= List.length (decoded arrivals) <= List.length arrivals)%nat.
Proof.
  destruct (run_rows float py_int py_float (decoded arrivals) st)
    as (st_end & Hrun & He & Hi & Hce & Hci).
  exists st_end.
  split; [now apply receive_decoded |].
  repeat (split; [assumption |]).
  split.
  - clear. induction (decoded arrivals) as [| arrival rest IH]; [simpl; lia |].
    unfold Stream.ecg_rows, Stream.imu_rows in *. cbn [flat_map List.length].
    rewrite !length_app.
    destruct (Leg.record_of float py_int py_float (snd arrival))
      as [[value | values] |]; simpl; lia.
  - clear. induction arrivals as [| [[timestamp now] raw] rest IH];
      [simpl; lia |].
    cbn [Stream.decoded]. destruct (decode raw); cbn [List.length]; lia.
Qed.

End BytesFacts.

(** Three arrivals: an ECG line, the lone byte [ff], another ECG line.  The
    loop ends at the second with the row of the first in the log. *)
Lemma stream_logs_witness :
  exists st_end : Leg.state Q,
    Stream.receive Q LegSample.decimal_int LegSample.decimal_float
      LegSample.decode_ascii LegSample.strip
      [("2025-01-01 00:00:00.000"%string, 0, list_byte_of_string "ECG,512 ");
       ("2025-01-01 00:00:00.004"%string, 0, [Byte.xff]);
       ("2025-01-01 00:00:00.008"%string, 0, list_byte_of_string "ECG,7")]
      LegSample.fresh
    = Stream.UnicodeDecodeError st_end
    /\ Leg.ecg_file st_end = [("2025-01-01 00:00:00.000"%string, 512%Z)].
Proof.
  destruct (stream_logs Q LegSample.decimal_int LegSample.decimal_float
              LegSample.decode_ascii LegSample.strip
              [("2025-01-01 00:00:00.000"%string, 0,
                list_byte_of_string "ECG,512 ");
               ("2025-01-01 00:00:00.004"%string, 0, [Byte.xff]);
               ("2025-01-01 00:00:00.008"%string, 0,
                list_byte_of_string "ECG,7")]
              LegSample.fresh)
    as (st_end & Hreceive & Hecg & _).
  exists st_end. split; [exact Hreceive | exact Hecg].
Defined.


(** ** Timestamps *)

Section StampFacts.

Local Open Scope string_scope.

Lemma append_assoc (a b c : string) : (a ++ b) ++ c = a ++ (b ++ c).
Proof. induction a as [| ch a IH]; cbn; [reflexivity | now rewrite IH]. Qed.

Lemma length_append (a b : string) :
  String.length (a ++ b) = (String.length a + String.length b)%nat.
Proof. induction a as [| ch a IH]; cbn; [reflexivity | now rewrite IH]. Qed.

Lemma substring_prefix (a b : string) :
  substring 0 (String.length a) (a ++ b) = a.
Proof.
  induction a as [| ch a IH]; cbn.
  - now destruct b.
  - now rewrite IH.
Qed.

Lemma substring_skip (a b : string) (len : nat) :
  substring (String.length a) len (a ++ b) = substring 0 len b.
Proof. induction a as [| ch a IH]; cbn; [reflexivity | exact IH]. Qed.

Lemma substring_whole (a : string) : substring 0 (String.length a) a = a.
Proof. induction a as [| ch a IH]; cbn; [reflexivity | now rewrite IH]. Qed.

Lemma length_zero_padded (width : nat) (n : Z) :
  String.length (Stamp.zero_padded width n) = width.
Proof.
  revert n. induction width as [| w IH]; intros n; [reflexivity |].
  cbn [Stamp.zero_padded]. rewrite length_append, IH. cbn. lia.
Qed.

(** The first digits of a number and its last digits, printed one after the
    other, are the number printed. *)
Lemma zero_padded_split (a b : nat) (n : Z) :
  Stamp.zero_padded (a + b) n
  = Stamp.zero_padded a (n / 10 ^ Z.of_nat b)
    ++ Stamp.zero_padded b (n mod 10 ^ Z.of_nat b).
Proof.
  revert n. induction b as [| b IH]; intros n.
  - rewrite Nat.add_0_r. cbn [Z.of_nat Stamp.zero_padded].
    rewrite Z.pow_0_r, Z.div_1_r.
    induction (Stamp.zero_padded a n) as [| ch t IHt]; cbn;
      [reflexivity | now rewrite <- IHt].
  - rewrite Nat.add_succ_r. cbn [Stamp.zero_padded].
    rewrite IH, append_assoc.
    rewrite Nat2Z.inj_succ, Z.pow_succ_r by lia.
    assert (Hpos : (0 < 10 ^ Z.of_nat b)%Z) by (apply Z.pow_pos_nonneg; lia).
    rewrite Z.div_div by lia.
    rewrite (Z.rem_mul_r n 10 (10 ^ Z.of_nat b)) by lia.
    replace ((n mod 10 + 10 * ((n / 10) mod 10 ^ Z.of_nat b)) / 10)%Z
      with ((n / 10) mod 10 ^ Z.of_nat b)%Z.
    + replace ((n mod 10 + 10 * ((n / 10) mod 10 ^ Z.of_nat b)) mod 10)%Z
        with (n mod 10)%Z; [reflexivity |].
      rewrite (Z.mul_comm 10), Z.mod_add by lia.
      now rewrite Z.mod_mod by lia.
    + rewrite (Z.mul_comm 10), Z.div_add by lia.
      rewrite (Z.div_small (n mod 10) 10) by (apply Z.mod_pos_bound; lia).
      lia.
Qed.

Lemma digit_of_char (d : Z) :
  (0 <= d <= 9)%Z -> LegSample.digit (Stamp.digit_char d) = Some d.
Proof.
  intros Hd.
  assert (Hcase : (d = 0 \/ d = 1 \/ d = 2 \/ d = 3 \/ d = 4 \/ d = 5
                   \/ d = 6 \/ d = 7 \/ d = 8 \/ d = 9)%Z) by lia.
  repeat (destruct Hcase as [-> | Hcase]; [reflexivity |]).
  now subst d.
Qed.

(** Reading back what was printed with leading zeros. *)
Lemma digits_of_zero_padded (width : nat) (n acc : Z) (rest : string) :
  (0 <= n < 10 ^ Z.of_nat width)%Z ->
  LegSample.digits_from acc (Stamp.zero_padded width n ++ rest)
  = LegSample.digits_from (acc * 10 ^ Z.of_nat width + n)%Z rest.
Proof.
  revert n acc rest.
  induction width as [| w IH]; intros n acc rest Hn.
  - cbn in *. f_equal. lia.
  - cbn [Stamp.zero_padded]. rewrite append_assoc.
    rewrite Nat2Z.inj_succ, Z.pow_succ_r in * by lia.
    rewrite IH.
    + cbn [String.append LegSample.digits_from].
      rewrite digit_of_char by (pose proof (Z.mod_pos_bound n 10); lia).
      f_equal. pose proof (Z.div_mod n 10). lia.
    + split; [apply Z.div_pos; lia |].
      apply Z.div_lt_upper_bound; lia.
Qed.

Lemma natural_of_zero_padded (width : nat) (n : Z) :
  (0 < width)%nat -> (0 <= n < 10 ^ Z.of_nat width)%Z ->
  LegSample.natural (Stamp.zero_padded width n) = Some n.
Proof.
  intros Hw Hn. unfold LegSample.natural.
  destruct (Stamp.zero_padded width n) as [| ch t] eqn:E.
  - apply (f_equal String.length) in E.
    rewrite length_zero_padded in E. simpl in E. lia.
  - rewrite <- E.
    assert (Happ : forall t0 : string, t0 = t0 ++ "")
      by (induction t0 as [| c0 t0 IHt]; cbn; [reflexivity | now rewrite <- IHt]).
    rewrite (Happ (Stamp.zero_padded width n)).
    rewrite digits_of_zero_padded by assumption. cbn. f_equal; lia.
Qed.

End StampFacts.

Section StampTheorems.

Local Open Scope string_scope.

Lemma strftime_parts (d : Stamp.datetime) :
  Stamp.strftime d
  = (Stamp.to_the_second d
     ++ Stamp.zero_padded 3 (Stamp.microsecond d / 1000))
    ++ Stamp.zero_padded 3 (Stamp.microsecond d mod 1000).
Proof.
  unfold Stamp.strftime, Stamp.to_the_second.
  change 6%nat with (3 + 3)%nat.
  rewrite (zero_padded_split 3 3).
  change (10 ^ Z.of_nat 3)%Z with 1000%Z.
  now rewrite !append_assoc.
Qed.

Lemma stamp_parts (d : Stamp.datetime) :
  Stamp.get_formatted_timestamp d
  = Stamp.to_the_second d ++ Stamp.zero_padded 3 (Stamp.microsecond d / 1000).
Proof.
  unfold Stamp.get_formatted_timestamp, Stamp.but_last_three.
  rewrite strftime_parts.
  rewrite (length_append _ (Stamp.zero_padded 3 _)), length_zero_padded.
  rewrite Nat.add_sub. apply substring_prefix.
Qed.

Lemma length_to_the_second (d : Stamp.datetime) :
  String.length (Stamp.to_the_second d) = 20%nat.
Proof.
  unfold Stamp.to_the_second.
  repeat (rewrite length_append, length_zero_padded). reflexivity.
Qed.

(** A timestamp as it is printed. *)
Lemma stamp_example :
  Stamp.get_formatted_timestamp
    {| Stamp.year := 2025; Stamp.month := 3; Stamp.day := 9;
       Stamp.hour := 7; Stamp.minute := 5; Stamp.second := 1;
       Stamp.microsecond := 123999 |}
  = "2025-03-09 07:05:01.123".
Proof. reflexivity. Qed.

(** X20. The timestamp is the date and the time of day to the second,
    followed by the milliseconds in three digits: the microseconds are cut
    to milliseconds, not rounded.  It always has 23 characters, and two
    instants of the same millisecond get the same timestamp. *)
Theorem stamp_milliseconds (d : Stamp.datetime) :
  Stamp.get_formatted_timestamp d
  = (Stamp.to_the_second d
     ++ Stamp.zero_padded 3 (Stamp.microsecond d / 1000))%string
  /\ String.length (Stamp.get_formatted_timestamp d) = 23%nat
  /\ forall micro : Z,
       (micro / 1000 = Stamp.microsecond d / 1000)%Z ->
       Stamp.get_formatted_timestamp
         {| Stamp.year := Stamp.year d; Stamp.month := Stamp.month d;
            Stamp.day := Stamp.day d; Stamp.hour := Stamp.hour d;
            Stamp.minute := Stamp.minute d; Stamp.second := Stamp.second d;
            Stamp.microsecond := micro |}
       = Stamp.get_formatted_timestamp d.
Proof.
  split; [apply stamp_parts |]. split.
  - rewrite stamp_parts, length_append, length_to_the_second,
      length_zero_padded. reflexivity.
  - intros micro Hsame. rewrite !stamp_parts.
    unfold Stamp.to_the_second. cbn [Stamp.year Stamp.month Stamp.day
      Stamp.hour Stamp.minute Stamp.second Stamp.microsecond].
    now rewrite Hsame.
Qed.

Lemma stamp_milliseconds_witness :
  Stamp.get_formatted_timestamp
    {| Stamp.year := 2025; Stamp.month := 3; Stamp.day := 9;
       Stamp.hour := 7; Stamp.minute := 5; Stamp.second := 1;
       Stamp.microsecond := 123999 |}
  = Stamp.get_formatted_timestamp
      {| Stamp.year := 2025; Stamp.month := 3; Stamp.day := 9;
         Stamp.hour := 7; Stamp.minute := 5; Stamp.second := 1;
         Stamp.microsecond := 123000 |}.
Proof.
  apply (proj2 (proj2 (stamp_milliseconds
                         {| Stamp.year := 2025; Stamp.month := 3;
                            Stamp.day := 9; Stamp.hour := 7;
                            Stamp.minute := 5; Stamp.second := 1;
                            Stamp.microsecond := 123000 |})) 123999%Z).
  reflexivity.
Defined.

(** X21. The fields of a timestamp read back as they were: year, month,
    day, hour, minute and second at their fixed places, and the milliseconds
    (the microseconds divided by 1000) in the last three characters. *)
Theorem stamp_round_trip (d : Stamp.datetime) :
  Stamp.valid d ->
  let stamp := Stamp.get_formatted_timestamp d in
  Stamp.field 0 4 stamp = Some (Stamp.year d)
  /\ Stamp.field 5 2 stamp = Some (Stamp.month d)
  /\ Stamp.field 8 2 stamp = Some (Stamp.day d)
  /\ Stamp.field 11 2 stamp = Some (Stamp.hour d)
  /\ Stamp.field 14 2 stamp = Some (Stamp.minute d)
  /\ Stamp.field 17 2 stamp = Some (Stamp.second d)
  /\ Stamp.field 20 3 stamp = Some (Stamp.microsecond d / 1000)%Z.
Proof.
  intros (Hy & Hmo & Hd & Hh & Hmi & Hs & Hus) stamp.
  unfold stamp. rewrite stamp_parts.
  set (ms := (Stamp.microsecond d / 1000)%Z).
  assert (Hms : (0 <= ms < 1000)%Z).
  { unfold ms. split; [apply Z.div_pos; lia | apply Z.div_lt_upper_bound; lia]. }
  repeat split.
  - change (LegSample.natural (Stamp.zero_padded 4 (Stamp.year d))
            = Some (Stamp.year d)).
    apply natural_of_zero_padded; [lia | cbn; lia].
  - change (LegSample.natural (Stamp.zero_padded 2 (Stamp.month d))
            = Some (Stamp.month d)).
    apply natural_of_zero_padded; [lia | cbn; lia].
  - change (LegSample.natural (Stamp.zero_padded 2 (Stamp.day d))
            = Some (Stamp.day d)).
    apply natural_of_zero_padded; [lia | cbn; lia].
  - change (LegSample.natural (Stamp.zero_padded 2 (Stamp.hour d))
            = Some (Stamp.hour d)).
    apply natural_of_zero_padded; [lia | cbn; lia].
  - change (LegSample.natural (Stamp.zero_padded 2 (Stamp.minute d))
            = Some (Stamp.minute d)).
    apply natural_of_zero_padded; [lia | cbn; lia].
  - change (LegSample.natural (Stamp.zero_padded 2 (Stamp.second d))
            = Some (Stamp.second d)).
    apply natural_of_zero_padded; [lia | cbn; lia].
  - change (LegSample.natural (Stamp.zero_padded 3 ms) = Some ms).
    apply natural_of_zero_padded; [lia | cbn; lia].
Qed.

Lemma stamp_round_trip_witness :
  Stamp.field 20 3
    (Stamp.get_formatted_timestamp
       {| Stamp.year := 2025; Stamp.month := 3; Stamp.day := 9;
          Stamp.hour := 7; Stamp.minute := 5; Stamp.second := 1;
          Stamp.microsecond := 123999 |})
  = Some (123999 / 1000)%Z.
Proof.
  refine (proj2 (proj2 (proj2 (proj2 (proj2 (proj2
            (stamp_round_trip
               {| Stamp.year := 2025; Stamp.month := 3; Stamp.day := 9;
                  Stamp.hour := 7; Stamp.minute := 5; Stamp.second := 1;
                  Stamp.microsecond := 123999 |} _))))))).
  unfold Stamp.valid. cbn. lia.
Defined.

End StampTheorems.

Section StampOrder.

Local Open Scope string_scope.

Lemma append_empty (text : string) : text ++ "" = text.
Proof. induction text as [| c t IH]; cbn; [reflexivity | now rewrite IH]. Qed.

Lemma compare_digit_chars (a b : Z) :
  (0 <= a <= 9)%Z -> (0 <= b <= 9)%Z ->
  Ascii.compare (Stamp.digit_char a) (Stamp.digit_char b) = (a ?= b)%Z.
Proof.
  intros Ha Hb.
  assert (Ca : (a = 0 \/ a = 1 \/ a = 2 \/ a = 3 \/ a = 4 \/ a = 5
                \/ a = 6 \/ a = 7 \/ a = 8 \/ a = 9)%Z) by lia.
  assert (Cb : (b = 0 \/ b = 1 \/ b = 2 \/ b = 3 \/ b = 4 \/ b = 5
                \/ b = 6 \/ b = 7 \/ b = 8 \/ b = 9)%Z) by lia.
  clear Ha Hb.
  repeat (destruct Ca as [-> | Ca]);
    repeat (destruct Cb as [-> | Cb]); subst; reflexivity.
Qed.

(** Numbers printed in the same width compare as text the way they compare
    as numbers. *)
Lemma compare_zero_padded (width : nat) :
  forall (a b : Z) (s t : string),
    (0 <= a < 10 ^ Z.of_nat width)%Z -> (0 <= b < 10 ^ Z.of_nat width)%Z ->
    String.compare (Stamp.zero_padded width a ++ s)
      (Stamp.zero_padded width b ++ t)
    = match (a ?= b)%Z with
      | Eq => String.compare s t
      | c => c
      end.
Proof.
  induction width as [| w IH]; intros a b s t Ha Hb.
  - cbn in *. assert (a = b) by lia. subst b. now rewrite Z.compare_refl.
  - cbn [Stamp.zero_padded]. rewrite !append_assoc.
    rewrite Nat2Z.inj_succ, Z.pow_succ_r in * by lia.
    rewrite IH
      by (split; [apply Z.div_pos; lia | apply Z.div_lt_upper_bound; lia]).
    cbn [String.append String.compare].
    rewrite compare_digit_chars
      by (pose proof (Z.mod_pos_bound a 10); pose proof (Z.mod_pos_bound b 10);
          lia).
    pose proof (Z.div_mod a 10). pose proof (Z.div_mod b 10).
    pose proof (Z.mod_pos_bound a 10). pose proof (Z.mod_pos_bound b 10).
    destruct (Z.compare_spec (a / 10) (b / 10));
      destruct (Z.compare_spec (a mod 10) (b mod 10));
      destruct (Z.compare_spec a b); try reflexivity; lia.
Qed.

(** X22. Timestamps sort as text the way the instants they show sort in
    time: comparing two timestamps character by character gives the order of
    their years, then months, days, hours, minutes, seconds and
    milliseconds. *)
Theorem stamp_order (d1 d2 : Stamp.datetime) :
  Stamp.valid d1 -> Stamp.valid d2 ->
  String.compare (Stamp.get_formatted_timestamp d1)
    (Stamp.get_formatted_timestamp d2)
  = Stamp.earlier (Stamp.shown d1) (Stamp.shown d2).
Proof.
  intros (Hy1 & Hmo1 & Hd1 & Hh1 & Hmi1 & Hs1 & Hus1)
         (Hy2 & Hmo2 & Hd2 & Hh2 & Hmi2 & Hs2 & Hus2).
  rewrite !stamp_parts. unfold Stamp.to_the_second, Stamp.shown.
  assert (Hms1 : (0 <= Stamp.microsecond d1 / 1000 < 1000)%Z)
    by (split; [apply Z.div_pos; lia | apply Z.div_lt_upper_bound; lia]).
  assert (Hms2 : (0 <= Stamp.microsecond d2 / 1000 < 1000)%Z)
    by (split; [apply Z.div_pos; lia | apply Z.div_lt_upper_bound; lia]).
  rewrite <- (append_empty (Stamp.zero_padded 3 (Stamp.microsecond d1 / 1000))),
          <- (append_empty (Stamp.zero_padded 3 (Stamp.microsecond d2 / 1000))).
  rewrite !append_assoc.
  cbn [Stamp.earlier].
  repeat (rewrite compare_zero_padded by (cbn; lia);
          cbn [String.append String.compare Ascii.compare];
          change (N.compare (N_of_ascii "-") (N_of_ascii "-")) with Eq;
          change (N.compare (N_of_ascii " ") (N_of_ascii " ")) with Eq;
          change (N.compare (N_of_ascii ":") (N_of_ascii ":")) with Eq;
          change (N.compare (N_of_ascii ".") (N_of_ascii ".")) with Eq;
          cbv iota).
  reflexivity.
Qed.

Lemma stamp_order_witness :
  String.compare
    (Stamp.get_formatted_timestamp
       {| Stamp.year := 2025; Stamp.month := 3; Stamp.day := 9;
          Stamp.hour := 7; Stamp.minute := 5; Stamp.second := 1;
          Stamp.microsecond := 999999 |})
    (Stamp.get_formatted_timestamp
       {| Stamp.year := 2025; Stamp.month := 3; Stamp.day := 9;
          Stamp.hour := 7; Stamp.minute := 5; Stamp.second := 2;
          Stamp.microsecond := 0 |})
  = Lt.
Proof.
  rewrite stamp_order; [reflexivity | |]; unfold Stamp.valid; cbn; lia.
Defined.

End StampOrder.

(** ** What is drawn *)

Lemma int_of_between (a b : Z) (v : R) :
  (0 <= a)%Z -> IZR a <= v <= IZR b -> (a <= Display.int_of v <= b)%Z.
Proof.
  intros Ha [Hlo Hhi]. unfold Display.int_of.
  assert (0 <= v) by (apply IZR_le in Ha; lra).
  destruct (Rle_dec 0 v); [| contradiction].
  destruct (base_Int_part v) as [Hfloor Hnear].
  split.
  - assert (Hlt : IZR (a - 1) < IZR (Int_part v))
      by (rewrite minus_IZR; lra).
    apply lt_IZR in Hlt. lia.
  - apply le_IZR. lra.
Qed.

(** X23. With the orientation in [-1, 1], as the main loop has it after its
    clamp, every colour channel is a byte (0 to 255), and on a frame at
    least 40 columns wide the position indicator is drawn on the bar, between
    column 20 and column [frame_width - 20]. *)
Theorem drawing_in_bounds (final : R) (frame_width : Z) :
  -1 <= final <= 1 ->
  (let '(c1, c2, c3) := Display.color final in
   (0 <= c1 <= 255 /\ 0 <= c2 <= 255 /\ 0 <= c3 <= 255)%Z)
  /\ ((40 <= frame_width)%Z ->
      (20 <= Display.pos_x final frame_width <= frame_width - 20)%Z).
Proof.
  intros Hfinal. split.
  - unfold Display.color.
    destruct (Rgt_dec final 0) as [Hpos | Hneg].
    + repeat split; try lia; apply (int_of_between 0 255); cbn; lra || lia.
    + assert (Habs : Rabs final = - final)
        by (apply Rabs_left1; lra).
      rewrite Habs.
      repeat split; try lia; apply (int_of_between 0 255); cbn; lra || lia.
  - intros Hwide. unfold Display.pos_x. cbv zeta.
    assert (Hw : 40 <= IZR frame_width) by (apply IZR_le in Hwide; lra).
    apply int_of_between; [lia |].
    rewrite !minus_IZR. split; nra.
Qed.

Lemma drawing_in_bounds_witness :
  (20 <= Display.pos_x 1 640 <= 640 - 20)%Z.
Proof.
  apply (proj2 (drawing_in_bounds 1 640 ltac:(lra))). lia.
Defined.

(** ** The statistics line of the demultiplexer *)

Section StatisticsFacts.

Variable float : Type.
Variable py_int : string -> option Z.
Variable py_float : string -> option float.

Local Open Scope list_scope.

Local Abbreviation state := (Leg.state float).
Local Abbreviation process_line := (Leg.process_line float py_int py_float).
Local Abbreviation record_of := (Leg.record_of float py_int py_float).
Local Abbreviation counted := (Stream.counted float).

Lemma print_statistics_console (now : R) (st : state) :
  Leg.console (Leg.print_statistics float now st) = Leg.console st
  \/ (now - Leg.last_stats_time st >= 1
      /\ Leg.console (Leg.print_statistics float now st)
         = Leg.console st
           ++ [Leg.RecordsCollected (Leg.ecg_count st) (Leg.imu_count st)]).
Proof.
  unfold Leg.print_statistics.
  destruct (Rge_dec _ _); [right | left]; auto.
Qed.

Lemma print_statistics_counted (now : R) (mid : state) :
  counted mid -> counted (Leg.print_statistics float now mid).
Proof.
  intros [He Hi].
  destruct (print_statistics_logs float now mid) as [Hfe Hfi].
  destruct (print_statistics_counts float now mid) as [Hce Hci].
  unfold Stream.counted. now rewrite Hfe, Hfi, Hce, Hci.
Qed.

Lemma print_statistics_tells (now : R) (mid : state) :
  counted mid ->
  Leg.console (Leg.print_statistics float now mid) = Leg.console mid
  \/ (now - Leg.last_stats_time mid >= 1
      /\ Leg.console (Leg.print_statistics float now mid)
         = Leg.console mid
           ++ [Leg.RecordsCollected
                 (List.length
                    (Leg.ecg_file (Leg.print_statistics float now mid)))
                 (List.length
                    (Leg.imu_file (Leg.print_statistics float now mid)))]).
Proof.
  intros [He Hi].
  destruct (print_statistics_logs float now mid) as [Hfe Hfi].
  destruct (print_statistics_console now mid) as [Hsame | [Hdue Hprint]];
    [now left | right].
  split; [exact Hdue |]. now rewrite Hprint, Hfe, Hfi, He, Hi.
Qed.


End StatisticsFacts.

